(** * Heimdall SSO: the authentication and authorisation core

    A shallow embedding of the server side of [@need4swede/heimdall-sso]
    (access control, token service, user directory, middleware chain and
    route handlers) together with the properties its specification states.

    Conventions.
    - JavaScript strings are [string], a character standing for a code
      unit below 256; [toLowerCase] is [String.prototype.toLowerCase] on
      these: the letters A to Z and the capitals of Latin-1.
    - [undefined]/[null] results are [None]; truthiness of a string is
      non-emptiness.
    - Time is [Date.now()], an integer number of milliseconds ([Z]).
    - Handlers and middleware are functions from the state they read to the
      state they leave and the HTTP outcome they produce. *)

From Stdlib Require Import ZArith Lia Bool List Ascii String.
From stdpp Require Import base option list strings countable gmap sorting pretty.
Import ListNotations.

Local Open Scope string_scope.
Local Open Scope Z_scope.

(** ** JavaScript string primitives used by the sources *)

Module Js.

(** [!s] is false exactly for the non-empty strings. *)
Definition truthy (s : string) : bool :=
  match s with
  | EmptyString => false
  | String _ _ => true
  end.

(** Truthiness of a possibly absent string property. *)
Definition truthy_opt (o : option string) : bool :=
  match o with
  | Some s => truthy s
  | None => false
  end.

Definition lower_ascii (c : ascii) : ascii :=
  let n := nat_of_ascii c in
  if (((65 <=? n) && (n <=? 90))
      || ((192 <=? n) && (n <=? 222) && negb (n =? 215)))%nat%bool
  then ascii_of_nat (n + 32) else c.

(** [s.toLowerCase()] *)
Fixpoint toLowerCase (s : string) : string :=
  match s with
  | EmptyString => EmptyString
  | String c s' => String (lower_ascii c) (toLowerCase s')
  end.

(** [s.split(sep)] for a one-character separator: the segments between
    the separators, in order; never the empty array. *)
Fixpoint split (sep : ascii) (s : string) : list string :=
  match s with
  | EmptyString => [EmptyString]
  | String c s' =>
      if Ascii.eqb c sep then EmptyString :: split sep s'
      else match split sep s' with
           | [] => [String c EmptyString]
           | w :: ws => String c w :: ws
           end
  end.

(** [arr.includes(x)] on an array of strings. *)
Definition includes (arr : list string) (x : string) : bool :=
  existsb (String.eqb x) arr.

(** [arr.includes(x)] when [x] may be [undefined]: an array of strings
    never holds [undefined]. *)
Definition includes_opt (arr : list string) (x : option string) : bool :=
  match x with
  | Some s => includes arr s
  | None => false
  end.

(** Number of occurrences of a character. *)
Fixpoint occurrences (c : ascii) (s : string) : nat :=
  match s with
  | EmptyString => 0%nat
  | String d s' => ((if Ascii.eqb d c then 1 else 0) + occurrences c s')%nat
  end.

(** [Math.ceil(x / d)] for integers [x] and a positive integer [d]. *)
Definition ceil_div (x d : Z) : Z := - ((- x) / d).

End Js.

(** ** Access control ([OAuthService.checkAccessControl]) *)

Module OAuth.

(** [HeimdallOptions.accessControl]: both lists are optional. *)
Record AccessControl := {
  allowedDomains : option (list string);
  allowedEmails : option (list string)
}.

(** [const { allowedDomains = [], allowedEmails = [] } =
     this.options.accessControl || {}] *)
Definition domains_of (ac : option AccessControl) : list string :=
  default [] (ac ≫= allowedDomains).

Definition emails_of (ac : option AccessControl) : list string :=
  default [] (ac ≫= allowedEmails).

Definition checkAccessControl (ac : option AccessControl) (email : string) : bool :=
  let allowedDomains := domains_of ac in
  let allowedEmails := emails_of ac in
  if ((length allowedDomains =? 0)%nat && (length allowedEmails =? 0)%nat)%bool then true
  else
    let emailLower := Js.toLowerCase email in
    let domain := Js.split "@" emailLower !! 1%nat in
    if ((0 <? length allowedEmails)%nat && Js.includes allowedEmails emailLower)%bool then true
    else if ((0 <? length allowedDomains)%nat && Js.includes_opt allowedDomains domain)%bool then true
    else false.

(** The evaluator as the specification words it, for comparison with
    [checkAccessControl]: the domain is what follows the first [@], and
    both comparisons ignore case on both sides. *)
Fixpoint after_first_at (s : string) : option string :=
  match s with
  | EmptyString => None
  | String c s' => if Ascii.eqb c "@" then Some s' else after_first_at s'
  end.

Definition eqb_ci (a b : string) : bool :=
  String.eqb (Js.toLowerCase a) (Js.toLowerCase b).

Definition isAllowed_spec (ac : option AccessControl) (email : string) : bool :=
  match domains_of ac, emails_of ac with
  | [], [] => true
  | ds, es =>
      (match after_first_at email with
       | Some d => existsb (eqb_ci d) ds
       | None => false
       end || existsb (eqb_ci email) es)%bool
  end.

End OAuth.

(** ** User directory ([PostgresAdapter]) over the [users] table

    The table is the list of its rows, in insertion order, with the
    [SERIAL] sequence of the [id] column.  A statement fails when an
    integer parameter does not parse, when a text parameter holds the
    character of code 0, when a value does not fit its [VARCHAR] column,
    when the sequence has no value left in the range of [INTEGER], or
    when an email would be stored twice; a lost connection is outside
    the model. *)

Module Postgres.

(** [role VARCHAR(50) CHECK (role IN ('user', 'admin', 'super_admin'))] *)
Inductive Role := user | admin | super_admin.

#[global] Instance role_eq_dec : EqDecision Role.
Proof. solve_decision. Defined.

Definition role_to_string (r : Role) : string :=
  match r with
  | user => "user"
  | admin => "admin"
  | super_admin => "super_admin"
  end.

Definition role_of_string (s : string) : option Role :=
  if String.eqb s "user" then Some user
  else if String.eqb s "admin" then Some admin
  else if String.eqb s "super_admin" then Some super_admin
  else None.

Definition role_eqb (a b : Role) : bool :=
  match a, b with
  | user, user | admin, admin | super_admin, super_admin => true
  | _, _ => false
  end.

(** A row of [users], one field per column of [CREATE TABLE users]. *)
Record Row := {
  id : Z;
  email : string;
  name : string;
  role : Role;
  avatar : option string;
  provider : option string;
  created_at : Z;
  updated_at : Z;
  last_login : option Z;
  is_active : bool
}.

(** The JavaScript object [pg] builds for a row of [SELECT *] or
    [RETURNING *]: one property per column, named as the column is. *)
Inductive Value :=
| Undefined
| Null
| Num (n : Z)
| Str (s : string)
| Bool (b : bool)
| Date (t : Z).

Definition truthy_value (v : Value) : bool :=
  match v with
  | Undefined | Null => false
  | Num n => negb (n =? 0)
  | Str s => Js.truthy s
  | Bool b => b
  | Date _ => true
  end.

Definition nullable {A} (f : A -> Value) (o : option A) : Value :=
  match o with
  | Some a => f a
  | None => Null
  end.

(** [row[key]] *)
Definition prop (r : Row) (key : string) : Value :=
  if String.eqb key "id" then Num (id r)
  else if String.eqb key "email" then Str (email r)
  else if String.eqb key "name" then Str (name r)
  else if String.eqb key "role" then Str (role_to_string (role r))
  else if String.eqb key "avatar" then nullable Str (avatar r)
  else if String.eqb key "provider" then nullable Str (provider r)
  else if String.eqb key "created_at" then Date (created_at r)
  else if String.eqb key "updated_at" then Date (updated_at r)
  else if String.eqb key "last_login" then nullable Date (last_login r)
  else if String.eqb key "is_active" then Bool (is_active r)
  else Undefined.

Record Db := {
  rows : list Row;
  next_id : Z
}.

Definition empty : Db := {| rows := []; next_id := 1 |}.

(** *** Integer parameters

    A query parameter reaches the server as text and is read by the
    integer input routine of the [id] column: blanks, an optional sign,
    decimal digits, blanks; within the range of [INTEGER]. *)

Definition is_space (c : ascii) : bool :=
  let n := nat_of_ascii c in
  ((n =? 32) || ((9 <=? n) && (n <=? 13)))%nat%bool.

Definition digit_of (c : ascii) : option Z :=
  let n := nat_of_ascii c in
  if ((48 <=? n) && (n <=? 57))%nat%bool then Some (Z.of_nat n - 48) else None.

Fixpoint skip_space (s : string) : string :=
  match s with
  | String c s' => if is_space c then skip_space s' else s
  | EmptyString => s
  end.

Fixpoint all_space (s : string) : bool :=
  match s with
  | String c s' => (is_space c && all_space s')%bool
  | EmptyString => true
  end.

Fixpoint read_digits (s : string) (acc : Z) (seen : bool) : option (Z * string) :=
  match s with
  | EmptyString => if seen then Some (acc, s) else None
  | String c s' =>
      match digit_of c with
      | Some d => read_digits s' (10 * acc + d) true
      | None => if seen then Some (acc, s) else None
      end
  end.

Definition in_int4 (n : Z) : bool :=
  ((-2147483648 <=? n) && (n <=? 2147483647))%bool.

Definition int4in (s : string) : option Z :=
  let s1 := skip_space s in
  let '(neg, s2) :=
    match s1 with
    | String "-" r => (true, r)
    | String "+" r => (false, r)
    | _ => (false, s1)
    end in
  match read_digits s2 0 false with
  | Some (v, rest) =>
      let n := if neg then - v else v in
      if (all_space rest && in_int4 n)%bool then Some n else None
  | None => None
  end.

(** A parameter as the adapter passes it: a number or a string. *)
Inductive Param :=
| PNum (n : Z)
| PText (s : string).

Definition as_int4 (p : Param) : option Z :=
  match p with
  | PNum n => if in_int4 n then Some n else None
  | PText s => int4in s
  end.

(** *** Text parameters

    The server refuses a text parameter that holds the character of
    code 0, whatever the statement. *)

Fixpoint text_ok (s : string) : bool :=
  match s with
  | String c s' => (negb (Ascii.eqb c "000") && text_ok s')%bool
  | EmptyString => true
  end.

(** *** The adapter's operations *)

(** [SELECT * FROM users WHERE email = $1], [rows[0] || null]; a
    parameter the server refuses makes the query fail, which is caught
    and answered with [null]. *)
Definition getUserByEmail (db : Db) (mail : string) : option Row :=
  if text_ok mail then head (filter (fun r => email r = mail) (rows db)) else None.

(** [SELECT * FROM users WHERE id = $1], [rows[0] || null]; a parameter
    that is no integer makes the query fail, which is caught and
    answered with [null]. *)
Definition getUserById (db : Db) (p : Param) : option Row :=
  match as_int4 p with
  | Some n => head (filter (fun r => id r = n) (rows db))
  | None => None
  end.

Definition newer_first (a b : Row) : Prop := created_at b <= created_at a.

#[global] Instance newer_first_dec : RelDecision newer_first.
Proof. intros a b. unfold newer_first. apply _. Defined.

(** [SELECT * FROM users ORDER BY created_at DESC] *)
Definition getAllUsers (db : Db) : list Row :=
  merge_sort newer_first (rows db).

Definition set_login (nm : string) (now : Z) (r : Row) : Row :=
  {| id := id r; email := email r; name := nm; role := role r;
     avatar := avatar r; provider := provider r;
     created_at := created_at r; updated_at := now;
     last_login := Some now; is_active := is_active r |}.

Definition set_role (rl : Role) (now : Z) (r : Row) : Row :=
  {| id := id r; email := email r; name := name r; role := rl;
     avatar := avatar r; provider := provider r;
     created_at := created_at r; updated_at := now;
     last_login := last_login r; is_active := is_active r |}.

Definition set_active (b : bool) (now : Z) (r : Row) : Row :=
  {| id := id r; email := email r; name := name r; role := role r;
     avatar := avatar r; provider := provider r;
     created_at := created_at r; updated_at := now;
     last_login := last_login r; is_active := b |}.

(** [UPDATE users SET ... WHERE cond]: the new table. *)
Definition update_where (cond : Row -> bool) (f : Row -> Row) (l : list Row) : list Row :=
  map (fun r => if cond r then f r else r) l.

(** *** Values of the [VARCHAR] columns

    A text parameter assigned to a [VARCHAR(n)] column is stored as it
    is when it has at most [n] characters, cut to [n] characters when all
    that exceeds them is blanks, and refused otherwise. *)

Fixpoint all_blank (s : string) : bool :=
  match s with
  | String c s' => (Ascii.eqb c " " && all_blank s')%bool
  | EmptyString => true
  end.

Fixpoint fit (n : nat) (s : string) {struct s} : option string :=
  match s with
  | EmptyString => Some EmptyString
  | String c s' =>
      match n with
      | O => if all_blank s then Some EmptyString else None
      | S n' => String c <$> fit n' s'
      end
  end.

Definition varchar (n : nat) (s : string) : option string :=
  if text_ok s then fit n s else None.

(** [createOrUpdateUser(email, name, provider)] at time [now].  A refused
    statement is caught and answered with [null]: the [UPDATE] when the
    column does not take the name; the [INSERT] when the columns do not
    take email, name or provider or the sequence is exhausted, with the
    table as it was, or when the email as stored is already in the
    table, with the value drawn from the sequence spent. *)
Definition createOrUpdateUser (db : Db) (mail nm : string) (prov : option string)
    (now : Z) : Db * option Row :=
  match getUserByEmail db mail with
  | Some _ =>
      match varchar 255 nm with
      | Some nm' =>
          let cond := fun r => bool_decide (email r = mail) in
          let rows' := update_where cond (set_login nm' now) (rows db) in
          ({| rows := rows'; next_id := next_id db |},
           head (filter (fun r => email r = mail) rows'))
      | None => (db, None)
      end
  | None =>
      let userCount := length (rows db) in
      let rl := if (userCount =? 0)%nat then super_admin else user in
      match varchar 255 mail, varchar 255 nm,
            varchar 50 (if Js.truthy_opt prov then default "" prov else "microsoft") with
      | Some mail', Some nm', Some prov' =>
          if negb (in_int4 (next_id db)) then (db, None)
          else if Js.includes (email <$> rows db) mail'
          then ({| rows := rows db; next_id := next_id db + 1 |}, None)
          else
            let r := {| id := next_id db; email := mail'; name := nm'; role := rl;
                        avatar := None; provider := Some prov';
                        created_at := now; updated_at := now;
                        last_login := Some now; is_active := true |} in
            ({| rows := rows db ++ [r]; next_id := next_id db + 1 |}, Some r)
      | _, _, _ => (db, None)
      end
  end.

(** [updateUserRole(userId, role)]: the new table and whether a row was
    updated. *)
Definition updateUserRole (db : Db) (p : Param) (rl : Role) (now : Z) : Db * bool :=
  match as_int4 p with
  | Some n =>
      let cond := fun r => bool_decide (id r = n) in
      ({| rows := update_where cond (set_role rl now) (rows db); next_id := next_id db |},
       (0 <? length (filter (fun r => id r = n) (rows db)))%nat)
  | None => (db, false)
  end.

Definition set_is_active (b : bool) (db : Db) (p : Param) (now : Z) : Db * bool :=
  match as_int4 p with
  | Some n =>
      let cond := fun r => bool_decide (id r = n) in
      ({| rows := update_where cond (set_active b now) (rows db); next_id := next_id db |},
       (0 <? length (filter (fun r => id r = n) (rows db)))%nat)
  | None => (db, false)
  end.

Definition deactivateUser := set_is_active false.
Definition reactivateUser := set_is_active true.

(** The table as the schema keeps it: [id] is the primary key, drawn from
    the sequence, and [email] is unique. *)
Record wf (db : Db) : Prop := {
  wf_ids : NoDup (id <$> rows db);
  wf_emails : NoDup (email <$> rows db);
  wf_seq : Forall (fun r => id r < next_id db) (rows db)
}.

Definition count_super_admins (db : Db) : nat :=
  length (filter (fun r => role r = super_admin) (rows db)).

End Postgres.

(** ** The [jsonwebtoken] package, as far as the token service calls it

    [jwt.sign] and [jwt.verify] are library code.  Their control flow is
    modelled here; the wire format and the MAC are an interface ([Lib]):
    the compact serialisation with its parser, HMAC-SHA256 over the signing
    input, and the [ms] time-span parser. *)

Module Jwt.

(** [JWTPayload] of [types/index.ts]. *)
Record JWTPayload := {
  userId : Z;
  email : string;
  role : string;
  iat : option Z;
  exp : option Z
}.

(** A parsed token: the claims and the signature segment. *)
Record Jws := {
  jws_payload : JWTPayload;
  jws_signature : string
}.

(** What the library's [decode] makes of a string: it returns [null] for
    what is not three segments with a JSON header, throws the
    [SyntaxError] of [JSON.parse] for a payload that is not JSON under a
    header of type [JWT], and returns the parsed token otherwise. *)
Inductive Decoded :=
| NotJws
| Unparsable (message : string)
| Parsed (j : Jws).

Record Lib := {
  hs256 : string -> JWTPayload -> string;
  encode : Jws -> string;
  decode : string -> Decoded;
  ms : string -> option Z
}.

(** Parsing a serialised token gives the token back. *)
Definition lawful (L : Lib) : Prop :=
  forall j, decode L (encode L j) = Parsed j.

(** [expiresIn: string | number] *)
Inductive ExpiresIn :=
| Seconds (n : Z)
| Span (s : string).

Inductive Error :=
| TokenExpiredError (message : string)
| JsonWebTokenError (message : string)
| PlainError (message : string).

(** [timespan(time, iat)]: seconds are added as they are, a string goes
    through [ms] and is counted in whole seconds; [undefined] when [ms]
    rejects the string. *)
Definition timespan (L : Lib) (time : ExpiresIn) (timestamp : Z) : option Z :=
  match time with
  | Seconds n => Some (timestamp + n)
  | Span s => (fun m => timestamp + m / 1000) <$> ms L s
  end.

(** [jwt.sign({userId, email, role}, secret, {expiresIn})] at time [now]. *)
Definition sign (L : Lib) (uid : Z) (mail rl : string) (secret : string)
    (expiresIn : ExpiresIn) (now : Z) : Error + string :=
  let timestamp := now / 1000 in
  match timespan L expiresIn timestamp with
  | None => inl (PlainError "expiresIn should be a number of seconds or string representing a timespan")
  | Some e =>
      let payload := {| userId := uid; email := mail; role := rl;
                        iat := Some timestamp; exp := Some e |} in
      inr (encode L {| jws_payload := payload; jws_signature := hs256 L secret payload |})
  end.

(** [jwt.verify(token, secret)] at time [now]: structure first, then the
    signature, then the expiry; what [decode] throws is passed on. *)
Definition verify (L : Lib) (token : string) (secret : string) (now : Z)
    : Error + JWTPayload :=
  match decode L token with
  | NotJws => inl (JsonWebTokenError "jwt malformed")
  | Unparsable message => inl (PlainError message)
  | Parsed j =>
      if negb (String.eqb (jws_signature j) (hs256 L secret (jws_payload j)))
      then inl (JsonWebTokenError "invalid signature")
      else
        let clockTimestamp := now / 1000 in
        match exp (jws_payload j) with
        | Some e =>
            if e <=? clockTimestamp then inl (TokenExpiredError "jwt expired")
            else inr (jws_payload j)
        | None => inr (jws_payload j)
        end
  end.

End Jwt.

(** ** Token service ([JWTService]) *)

Module JWTService.

Import Jwt.

Record t := {
  secret : string;
  expiresIn : ExpiresIn
}.

(** The constructor: [expiresIn] defaults to ['7d']; a secret shorter than
    32 characters throws. *)
Definition new (secret : string) (expiresIn : option ExpiresIn) : option t :=
  if (negb (Js.truthy secret) || (String.length secret <? 32)%nat)%bool then None
  else Some {| secret := secret; expiresIn := default (Span "7d") expiresIn |}.

(** What a rejected promise carries: an [Error] with its message. *)
Inductive Thrown := JsError (message : string).

Inductive Result (A : Type) :=
| Ok (a : A)
| Throw (e : Thrown).
Arguments Ok {A} a.
Arguments Throw {A} e.

(** [generateToken(user)] at time [now]: the claims are the row's [id],
    [email] and [role]. *)
Definition generateToken (L : Lib) (s : t) (user : Postgres.Row) (now : Z)
    : Result string :=
  match sign L (Postgres.id user) (Postgres.email user)
          (Postgres.role_to_string (Postgres.role user)) (secret s) (expiresIn s) now with
  | inr token => Ok token
  | inl (TokenExpiredError m) | inl (JsonWebTokenError m) | inl (PlainError m) =>
      Throw (JsError m)
  end.

Definition verifyToken (L : Lib) (s : t) (token : string) (now : Z)
    : Result JWTPayload :=
  match verify L token (secret s) now with
  | inr decoded => Ok decoded
  | inl (TokenExpiredError _) => Throw (JsError "Token has expired")
  | inl (JsonWebTokenError _) => Throw (JsError "Invalid token")
  | inl (PlainError m) => Throw (JsError m)
  end.

(** [decodeToken]: the claims, read without checking the signature;
    [null] when [jwt.decode] returns [null] or throws. *)
Definition decodeToken (L : Lib) (token : string) : option JWTPayload :=
  match decode L token with
  | Parsed j => Some (jws_payload j)
  | NotJws | Unparsable _ => None
  end.

(** [extractTokenFromHeader]: only [Bearer <token>] yields a token. *)
Definition extractTokenFromHeader (authHeader : option string) : option string :=
  match authHeader with
  | None => None
  | Some h =>
      if negb (Js.truthy h) then None
      else match Js.split " " h with
           | [p0; p1] => if String.eqb p0 "Bearer" then Some p1 else None
           | _ => None
           end
  end.

(** The vocabulary of the claims about tokens.  A token is well signed
    when it parses and its signature is the one the secret gives; it is
    expired when the expiry it carries, in seconds, is at or before the
    current time, in milliseconds. *)
Definition well_signed (L : Lib) (s : t) (token : string) : bool :=
  match decode L token with
  | Parsed j => String.eqb (jws_signature j) (hs256 L (secret s) (jws_payload j))
  | NotJws | Unparsable _ => false
  end.

Definition expired (L : Lib) (token : string) (now : Z) : bool :=
  match decodeToken L token ≫= exp with
  | Some e => e * 1000 <=? now
  | None => false
  end.

(** The configured expiry duration, in seconds. *)
Definition configured_seconds (L : Lib) (e : ExpiresIn) : option Z :=
  match e with
  | Seconds n => Some n
  | Span sp => (fun m => m / 1000) <$> ms L sp
  end.

End JWTService.

(** ** Middleware chain ([AuthMiddleware]) *)

Module Middleware.

(** What the middleware reads of a request, and the identity it attaches. *)
Record Request := {
  authorization : option string;
  cookie_auth_token : option string;
  query_token : option string;
  x_auth_token : option string;
  ip : option string;
  user : option Postgres.Row
}.

Definition attach (u : Postgres.Row) (req : Request) : Request :=
  {| authorization := authorization req;
     cookie_auth_token := cookie_auth_token req;
     query_token := query_token req;
     x_auth_token := x_auth_token req;
     ip := ip req;
     user := Some u |}.

(** [res.status(status).json({ error, retryAfter })] *)
Record Reply := {
  status : Z;
  error : string;
  retryAfter : option Z
}.

(** What one middleware did with a request: the response it sent, if any,
    how often it called [next], and the request as it left it. *)
Record Outcome := {
  reply : option Reply;
  next_calls : nat;
  request : Request
}.

Definition respond (st : Z) (err : string) (req : Request) : Outcome :=
  {| reply := Some {| status := st; error := err; retryAfter := None |};
     next_calls := 0; request := req |}.

Definition next (req : Request) : Outcome :=
  {| reply := None; next_calls := 1; request := req |}.

(** [extractToken]: Authorization header, cookie, query parameter, custom
    header; the first one that holds a non-empty token. *)
Definition extractToken (req : Request) : option string :=
  let headerToken := JWTService.extractTokenFromHeader (authorization req) in
  if Js.truthy_opt headerToken then headerToken
  else if Js.truthy_opt (cookie_auth_token req) then cookie_auth_token req
  else if Js.truthy_opt (query_token req) then query_token req
  else if Js.truthy_opt (x_auth_token req) then x_auth_token req
  else None.

Section WithServices.

Variable L : Jwt.Lib.
Variable jwtService : JWTService.t.
Variable database : Postgres.Db.

Definition authenticate (req : Request) (now : Z) : Outcome :=
  match extractToken req with
  | None => respond 401 "No authentication token provided" req
  | Some token =>
      match JWTService.verifyToken L jwtService token now with
      | JWTService.Ok payload =>
          match Postgres.getUserById database (Postgres.PNum (Jwt.userId payload)) with
          | None => respond 401 "User not found" req
          | Some u =>
              if negb (Postgres.truthy_value (Postgres.prop u "isActive"))
              then respond 403 "User account is deactivated" req
              else next (attach u req)
          end
      | JWTService.Throw (JWTService.JsError message) =>
          if String.eqb message "Token has expired" then respond 401 "Token has expired" req
          else if String.eqb message "Invalid token" then respond 401 "Invalid token" req
          else respond 500 "Authentication failed" req
      end
  end.

Definition optionalAuth (req : Request) (now : Z) : Outcome :=
  match extractToken req with
  | Some token =>
      match JWTService.verifyToken L jwtService token now with
      | JWTService.Ok payload =>
          match Postgres.getUserById database (Postgres.PNum (Jwt.userId payload)) with
          | Some u =>
              if Postgres.truthy_value (Postgres.prop u "isActive")
              then next (attach u req)
              else next req
          | None => next req
          end
      | JWTService.Throw _ => next req
      end
  | None => next req
  end.

End WithServices.

Definition role_is (req_user : Postgres.Row) (rl : string) : bool :=
  match Postgres.prop req_user "role" with
  | Postgres.Str s => String.eqb s rl
  | _ => false
  end.

Definition requireAdmin (req : Request) : Outcome :=
  match user req with
  | None => respond 401 "Authentication required" req
  | Some u =>
      if (negb (role_is u "admin") && negb (role_is u "super_admin"))%bool
      then respond 403 "Admin access required" req
      else next req
  end.

Definition requireSuperAdmin (req : Request) : Outcome :=
  match user req with
  | None => respond 401 "Authentication required" req
  | Some u =>
      if negb (role_is u "super_admin")
      then respond 403 "Super admin access required" req
      else next req
  end.

(** *** Rate limiter *)

Record Entry := {
  count : Z;
  resetTime : Z
}.

(** [req.ip || 'unknown'] *)
Definition identifier (req : Request) : string :=
  if Js.truthy_opt (ip req) then default "" (ip req) else "unknown".

(** One request through the closure [rateLimit(maxRequests, windowMs)]
    returns, given the closure's map. *)
Definition rateLimit (maxRequests windowMs : Z) (requests : gmap string Entry)
    (req : Request) (now : Z) : gmap string Entry * Outcome :=
  let fresh :=
    (<[identifier req := {| count := 1; resetTime := now + windowMs |}]> requests,
     next req) in
  match requests !! identifier req with
  | None => fresh
  | Some userRequests =>
      if now >? resetTime userRequests then fresh
      else if count userRequests >=? maxRequests then
        (requests,
         {| reply := Some {| status := 429; error := "Too many requests";
                             retryAfter := Some (Js.ceil_div (resetTime userRequests - now) 1000) |};
            next_calls := 0; request := req |})
      else
        (<[identifier req := {| count := count userRequests + 1;
                                resetTime := resetTime userRequests |}]> requests,
         next req)
  end.

(** A client's requests, one after the other, at the given times. *)
Fixpoint serve (maxRequests windowMs : Z) (requests : gmap string Entry)
    (req : Request) (times : list Z) : gmap string Entry * list Outcome :=
  match times with
  | [] => (requests, [])
  | now :: rest =>
      let '(requests', o) := rateLimit maxRequests windowMs requests req now in
      let '(requests'', os) := serve maxRequests windowMs requests' req rest in
      (requests'', o :: os)
  end.

End Middleware.

(** ** Route handlers ([createAuthRoutes]) *)

Module Routes.

(** [req.body] of [POST /sso-login] *)
Record SsoBody := {
  email : option string;
  name : option string;
  provider : option string;
  avatar : option string
}.

(** The projection of the identity that [sso-login] answers with. *)
Record UserView := {
  view_id : Z;
  view_email : string;
  view_name : string;
  view_role : string;
  view_avatar : option string;
  view_provider : string
}.

Inductive Response :=
| Failure (status : Z) (error : string) (message : option string)
| Session (token : string) (user : UserView)
| UserBody (user : option Postgres.Row).

Definition status_of (r : Response) : Z :=
  match r with
  | Failure st _ _ => st
  | Session _ _ | UserBody _ => 200
  end.

Definition token_of (r : Response) : option string :=
  match r with
  | Session t _ => Some t
  | _ => None
  end.

(** [a || b] on optional strings *)
Definition or_else (a b : option string) : option string :=
  if Js.truthy_opt a then a else b.

Section WithServices.

Variable accessControl : option OAuth.AccessControl.
Variable L : Jwt.Lib.
Variable jwtService : JWTService.t.

(** [POST /sso-login] *)
Definition sso_login (db : Postgres.Db) (body : SsoBody) (now : Z)
    : Postgres.Db * Response :=
  match email body, name body with
  | Some mail, Some nm =>
      if (negb (Js.truthy mail) || negb (Js.truthy nm))%bool
      then (db, Failure 400 "Email and name are required" None)
      else if negb (OAuth.checkAccessControl accessControl mail)
      then (db, Failure 403 "Access denied"
                  (Some "Your email is not authorized to access this application"))
      else
        let prov := default "microsoft" (provider body) in
        let '(db', created) := Postgres.createOrUpdateUser db mail nm (Some prov) now in
        match created with
        | None => (db', Failure 500 "Failed to create or update user" None)
        | Some u =>
            match JWTService.generateToken L jwtService u now with
            | JWTService.Throw _ => (db', Failure 500 "Internal server error" None)
            | JWTService.Ok token =>
                (db', Session token
                        {| view_id := Postgres.id u;
                           view_email := Postgres.email u;
                           view_name := Postgres.name u;
                           view_role := Postgres.role_to_string (Postgres.role u);
                           view_avatar := or_else (avatar body) (Postgres.avatar u);
                           view_provider := prov |})
            end
        end
  | _, _ => (db, Failure 400 "Email and name are required" None)
  end.

End WithServices.

(** The guard of [PUT /users/:userId/role]: the change is refused when
    the new role is not [super_admin], exactly one super admin is listed
    and its id, printed, is the [userId] of the path. *)
Definition last_super_admin (db : Postgres.Db) (userId : string) : bool :=
  let allUsers := Postgres.getAllUsers db in
  let superAdmins := filter (fun u => Postgres.role u = Postgres.super_admin) allUsers in
  ((length superAdmins =? 1)%nat &&
   match head superAdmins with
   | Some u => String.eqb (pretty (Postgres.id u)) userId
   | None => false
   end)%bool.

(** [PUT /users/:userId/role], behind [authenticate] and
    [requireSuperAdmin]. *)
Definition put_role (db : Postgres.Db) (userId : string) (role : option string) (now : Z)
    : Postgres.Db * Response :=
  match role ≫= Postgres.role_of_string with
  | None => (db, Failure 400 "Invalid role" None)
  | Some rl =>
      if (negb (Postgres.role_eqb rl Postgres.super_admin) && last_super_admin db userId)%bool
      then (db, Failure 400 "Cannot remove the last super admin"
                  (Some "At least one super admin must exist"))
      else
        let '(db', success) := Postgres.updateUserRole db (Postgres.PText userId) rl now in
        if success then (db', UserBody (Postgres.getUserById db' (Postgres.PText userId)))
        else (db', Failure 404 "User not found" None)
  end.

End Routes.

(** ** Reachable directories

    The directories the handlers can produce, from the empty table. *)

Inductive reachable : Postgres.Db -> Prop :=
| reachable_empty : reachable Postgres.empty
| reachable_login db mail nm prov now :
    reachable db -> reachable (Postgres.createOrUpdateUser db mail nm prov now).1
| reachable_role db p rl now :
    reachable db -> reachable (Postgres.updateUserRole db p rl now).1
| reachable_active db b p now :
    reachable db -> reachable (Postgres.set_is_active b db p now).1.

(** ** A reference instance of the library interface

    A serialisation with a parser that inverts it, a keyed signature, and
    the [ms] spans the sources use.  It instantiates [Jwt.Lib] wherever a
    statement is evaluated on concrete tokens. *)

Module Reference.

Fixpoint bits_of_pos (p : positive) : string :=
  match p with
  | xH => EmptyString
  | xO q => String "0" (bits_of_pos q)
  | xI q => String "1" (bits_of_pos q)
  end.

Fixpoint pos_of_bits (s : string) : option positive :=
  match s with
  | EmptyString => Some xH
  | String c s' =>
      if Ascii.eqb c "0" then xO <$> pos_of_bits s'
      else if Ascii.eqb c "1" then xI <$> pos_of_bits s'
      else None
  end.

#[global] Instance payload_eq_dec : EqDecision Jwt.JWTPayload.
Proof. solve_decision. Defined.

#[global] Instance jws_eq_dec : EqDecision Jwt.Jws.
Proof. solve_decision. Defined.

Definition payload_to_list (p : Jwt.JWTPayload) : list positive :=
  [encode (Jwt.userId p); encode (Jwt.email p); encode (Jwt.role p);
   encode (Jwt.iat p); encode (Jwt.exp p)].

Definition payload_of_list (l : list positive) : option Jwt.JWTPayload :=
  match l with
  | [u; e; r; i; x] =>
      u' ← decode u; e' ← decode e; r' ← decode r; i' ← decode i; x' ← decode x;
      Some {| Jwt.userId := u'; Jwt.email := e'; Jwt.role := r'; Jwt.iat := i'; Jwt.exp := x' |}
  | _ => None
  end.

#[global] Instance payload_countable : Countable Jwt.JWTPayload.
Proof.
  apply (inj_countable payload_to_list payload_of_list).
  intros []. unfold payload_to_list, payload_of_list. cbn [Jwt.userId Jwt.email Jwt.role Jwt.iat Jwt.exp].
  rewrite !decode_encode. reflexivity.
Defined.

Definition jws_to_list (j : Jwt.Jws) : list positive :=
  encode (Jwt.jws_signature j) :: payload_to_list (Jwt.jws_payload j).

Definition jws_of_list (l : list positive) : option Jwt.Jws :=
  match l with
  | sg :: l' =>
      sg' ← decode sg; p ← payload_of_list l';
      Some {| Jwt.jws_payload := p; Jwt.jws_signature := sg' |}
  | [] => None
  end.

#[global] Instance jws_countable : Countable Jwt.Jws.
Proof.
  apply (inj_countable jws_to_list jws_of_list).
  intros [[] sg]. unfold jws_to_list, jws_of_list, payload_to_list, payload_of_list.
  cbn [Jwt.jws_payload Jwt.jws_signature Jwt.userId Jwt.email Jwt.role Jwt.iat Jwt.exp].
  rewrite !decode_encode. reflexivity.
Defined.

Definition ref_encode (j : Jwt.Jws) : string := bits_of_pos (encode j).

(** A string that starts with [{] stands for a token whose payload is
    no JSON. *)
Definition ref_decode (s : string) : Jwt.Decoded :=
  match s with
  | String "{" _ => Jwt.Unparsable "Unexpected token in JSON"
  | _ => match pos_of_bits s ≫= decode with
         | Some j => Jwt.Parsed j
         | None => Jwt.NotJws
         end
  end.

Definition ref_hs256 (key : string) (p : Jwt.JWTPayload) : string :=
  key +:+ "." +:+ bits_of_pos (encode p).

Definition ref_ms (s : string) : option Z :=
  if String.eqb s "7d" then Some 604800000
  else if String.eqb s "30d" then Some 2592000000
  else None.

Definition lib : Jwt.Lib :=
  {| Jwt.hs256 := ref_hs256; Jwt.encode := ref_encode;
     Jwt.decode := ref_decode; Jwt.ms := ref_ms |}.

Definition secret : string := "0123456789abcdef0123456789abcdef".

Definition service : JWTService.t :=
  {| JWTService.secret := secret; JWTService.expiresIn := Jwt.Span "7d" |}.

End Reference.

Lemma pos_of_bits_of_pos p : Reference.pos_of_bits (Reference.bits_of_pos p) = Some p.
Proof. induction p as [q IH | q IH |]; simpl; rewrite ?IH; reflexivity. Qed.

Lemma ref_decode_bits (p : positive) :
  Reference.ref_decode (Reference.bits_of_pos p)
  = match decode p with
    | Some j => Jwt.Parsed j
    | None => Jwt.NotJws
    end.
Proof.
  unfold Reference.ref_decode. rewrite pos_of_bits_of_pos.
  destruct p; reflexivity.
Qed.

Lemma reference_lawful : Jwt.lawful Reference.lib.
Proof.
  intros j. simpl. unfold Reference.ref_encode.
  rewrite ref_decode_bits, decode_encode. reflexivity.
Qed.

(** * Properties *)

(** ** Access control *)

Lemma includes_In (arr : list string) (x : string) :
  Js.includes arr x = true <-> In x arr.
Proof.
  unfold Js.includes. rewrite existsb_exists. split.
  - intros (y & Hy & Heq). apply String.eqb_eq in Heq. now subst.
  - intros Hx. exists x. split; [assumption | apply String.eqb_refl].
Qed.

Lemma length_eqb_0 {A} (l : list A) : (length l =? 0)%nat = true <-> l = [].
Proof. destruct l; simpl; split; intros H; congruence. Qed.

(** The second segment of [split] is what lies between the first and the
    second separator. *)
Lemma split_no_at (s : string) :
  Js.occurrences "@" s = 0%nat -> Js.split "@" s = [s].
Proof.
  induction s as [| c s IH]; simpl; [reflexivity |].
  destruct (Ascii.eqb c "@"); [intros H; discriminate H |].
  intros H. rewrite (IH H). reflexivity.
Qed.

Lemma split_nonempty (c : ascii) (s : string) : Js.split c s <> [].
Proof.
  destruct s as [| d s]; simpl; [discriminate |].
  destruct (Ascii.eqb d c); [discriminate |].
  destruct (Js.split c s); discriminate.
Qed.

Lemma split_second_general (s : string) :
  Js.split "@" s !! 1%nat = (fun r => default EmptyString (head (Js.split "@" r))) <$> OAuth.after_first_at s.
Proof.
  induction s as [| c s IH]; simpl; [reflexivity |].
  destruct (Ascii.eqb c "@") eqn:Hc.
  - simpl. destruct (Js.split "@" s) as [| w ws] eqn:Hs; [| reflexivity].
    exfalso. exact (split_nonempty _ _ Hs).
  - destruct (Js.split "@" s) as [| w ws] eqn:Hs.
    + exfalso. exact (split_nonempty _ _ Hs).
    + simpl in *. exact IH.
Qed.

Lemma after_first_at_occurrences (s r : string) :
  OAuth.after_first_at s = Some r ->
  Js.occurrences "@" s = S (Js.occurrences "@" r).
Proof.
  induction s as [| c s IH]; simpl; [discriminate |].
  destruct (Ascii.eqb c "@"); simpl.
  - intros [= ->]. reflexivity.
  - exact IH.
Qed.

Lemma split_second (s : string) :
  (Js.occurrences "@" s <= 1)%nat ->
  Js.split "@" s !! 1%nat = OAuth.after_first_at s.
Proof.
  intros Hocc. rewrite split_second_general.
  destruct (OAuth.after_first_at s) as [r |] eqn:Hr; [| reflexivity].
  apply after_first_at_occurrences in Hr.
  simpl. rewrite split_no_at by lia. reflexivity.
Qed.

Lemma lower_ascii_at (c : ascii) :
  Ascii.eqb (Js.lower_ascii c) "@" = Ascii.eqb c "@".
Proof. destruct c as [[] [] [] [] [] [] [] []]; reflexivity. Qed.

Lemma occurrences_toLowerCase (s : string) :
  Js.occurrences "@" (Js.toLowerCase s) = Js.occurrences "@" s.
Proof.
  induction s as [| c s IH]; simpl; [reflexivity |].
  rewrite lower_ascii_at, IH. reflexivity.
Qed.

(** What [checkAccessControl] computes, for every input: the lower-cased
    email, or the second [@]-segment of it, is an entry of its list as the
    entry is written. *)
Lemma checkAccessControl_general (ac : option OAuth.AccessControl) (email : string) :
  OAuth.checkAccessControl ac email = true <->
    (OAuth.domains_of ac = [] /\ OAuth.emails_of ac = [])
    \/ In (Js.toLowerCase email) (OAuth.emails_of ac)
    \/ exists d, Js.split "@" (Js.toLowerCase email) !! 1%nat = Some d
                 /\ In d (OAuth.domains_of ac).
Proof.
  unfold OAuth.checkAccessControl.
  set (ds := OAuth.domains_of ac). set (es := OAuth.emails_of ac).
  set (dom := Js.split "@" (Js.toLowerCase email) !! 1%nat).
  destruct ds as [| d0 ds'] eqn:Hds; destruct es as [| e0 es'] eqn:Hes;
    cbn [length Nat.eqb Nat.ltb Nat.leb andb].
  - split; [intros _; left; split; reflexivity | reflexivity].
  - destruct (Js.includes (e0 :: es') (Js.toLowerCase email)) eqn:Hin.
    + split; [intros _ | reflexivity]. right; left. now apply includes_In.
    + split; [discriminate |].
      intros [[_ H] | [H | (d & _ & [])]]; [discriminate |].
      apply includes_In in H. congruence.
  - destruct (Js.includes_opt (d0 :: ds') dom) eqn:Hin.
    + split; [intros _ | reflexivity]. right; right.
      destruct dom as [d |]; [| discriminate]. exists d. split; [reflexivity |].
      now apply includes_In.
    + split; [discriminate |].
      intros [[H _] | [[] | (d & Hd & H)]]; [discriminate |].
      rewrite Hd in Hin. apply includes_In in H.
      change (Js.includes (d0 :: ds') d = false) in Hin. congruence.
  - destruct (Js.includes (e0 :: es') (Js.toLowerCase email)) eqn:Hin.
    + split; [intros _ | reflexivity]. right; left. now apply includes_In.
    + destruct (Js.includes_opt (d0 :: ds') dom) eqn:Hin2.
      * split; [intros _ | reflexivity]. right; right.
        destruct dom as [d |]; [| discriminate]. exists d. split; [reflexivity |].
        now apply includes_In.
      * split; [discriminate |].
        intros [[H _] | [H | (d & Hd & H)]]; [discriminate | |].
        -- apply includes_In in H. congruence.
        -- rewrite Hd in Hin2. apply includes_In in H.
           change (Js.includes (d0 :: ds') d = false) in Hin2. congruence.
Qed.

Definition acme : option OAuth.AccessControl :=
  Some {| OAuth.allowedDomains := Some ["acme.com"]; OAuth.allowedEmails := Some [] |}.

Definition acme_upper : option OAuth.AccessControl :=
  Some {| OAuth.allowedDomains := Some ["ACME.com"]; OAuth.allowedEmails := Some [] |}.

(** The specification's example: the input's case is ignored. *)
Example checkAccessControl_acme :
  OAuth.checkAccessControl acme "x@acme.com" = true
  /\ OAuth.checkAccessControl acme "x@other.com" = false
  /\ OAuth.checkAccessControl acme "X@ACME.COM" = true.
Proof. repeat split; reflexivity. Qed.

(** C1, as stated, fails: a configured domain written with capitals never
    matches, although the claim compares list entries without regard to
    case. *)
Lemma checkAccessControl_entries_case_sensitive :
  OAuth.checkAccessControl acme_upper "x@acme.com" = false
  /\ OAuth.isAllowed_spec acme_upper "x@acme.com" = true.
Proof. split; reflexivity. Qed.

(** C1, amended: for an email with at most one [@], [checkAccessControl]
    is true when both lists are empty, and otherwise exactly when the
    lower-cased email is an entry of the email list, or what follows the
    [@] of the lower-cased email is an entry of the domain list; the
    entries are compared as they are written. *)
Theorem checkAccessControl_spec (ac : option OAuth.AccessControl) (email : string) :
  (Js.occurrences "@" email <= 1)%nat ->
  (OAuth.checkAccessControl ac email = true <->
    (OAuth.domains_of ac = [] /\ OAuth.emails_of ac = [])
    \/ In (Js.toLowerCase email) (OAuth.emails_of ac)
    \/ exists d, OAuth.after_first_at (Js.toLowerCase email) = Some d
                 /\ In d (OAuth.domains_of ac)).
Proof.
  intros Hocc. rewrite checkAccessControl_general.
  rewrite split_second by (rewrite occurrences_toLowerCase; exact Hocc).
  reflexivity.
Qed.

Lemma checkAccessControl_spec_witness :
  (Js.occurrences "@" "X@ACME.COM" <= 1)%nat
  /\ OAuth.checkAccessControl acme "X@ACME.COM" = true.
Proof.
  split; [simpl; lia |].
  apply (checkAccessControl_spec acme "X@ACME.COM"); [simpl; lia |].
  right; right. exists "acme.com". split; [reflexivity | left; reflexivity].
Defined.

(** ** Token service *)

Lemma seconds_le_millis (e now : Z) : e * 1000 <= now <-> e <= now / 1000.
Proof.
  split; intros H.
  - apply Z.div_le_lower_bound; lia.
  - pose proof (Z.mul_div_le now 1000 ltac:(lia)). nia.
Qed.

Lemma timespan_configured (L : Jwt.Lib) (e : Jwt.ExpiresIn) (timestamp : Z) :
  Jwt.timespan L e timestamp = (fun d => timestamp + d) <$> JWTService.configured_seconds L e.
Proof. destruct e as [n | sp]; simpl; [reflexivity |]. destruct (Jwt.ms L sp); reflexivity. Qed.

(** With the constructor's default, and [ms] reading ['7d'] as seven days
    of milliseconds, the configured duration is seven days. *)
Lemma default_expiry_seven_days (L : Jwt.Lib) (secret : string) (s : JWTService.t) :
  Jwt.ms L "7d" = Some (7 * 24 * 60 * 60 * 1000) ->
  JWTService.new secret None = Some s ->
  JWTService.configured_seconds L (JWTService.expiresIn s) = Some (7 * 24 * 60 * 60).
Proof.
  intros Hms. unfold JWTService.new.
  destruct (negb (Js.truthy secret) || (String.length secret <? 32)%nat)%bool; [discriminate |].
  intros [= <-]. simpl. rewrite Hms. reflexivity.
Qed.

(** The constructor refuses a short secret. *)
Lemma new_short_secret (secret : string) (e : option Jwt.ExpiresIn) :
  (String.length secret < 32)%nat -> JWTService.new secret e = None.
Proof.
  intros H. unfold JWTService.new.
  apply Nat.ltb_lt in H. rewrite H, orb_true_r. reflexivity.
Qed.

(** A token signed with another key, carrying an expiry long past. *)
Definition forged : string :=
  Reference.ref_encode
    {| Jwt.jws_payload := {| Jwt.userId := 1; Jwt.email := "x@acme.com"; Jwt.role := "super_admin";
                             Jwt.iat := Some 40; Jwt.exp := Some 100 |};
       Jwt.jws_signature := "forged" |}.

(** C2, as stated, fails: an expired token whose signature does not
    validate is answered with ['Invalid token'], not ['Token has expired'];
    the signature is checked before the expiry. *)
Lemma verifyToken_expired_forged :
  JWTService.expired Reference.lib forged 200000 = true
  /\ JWTService.verifyToken Reference.lib Reference.service forged 200000
     = JWTService.Throw (JWTService.JsError "Invalid token").
Proof. split; vm_compute; reflexivity. Qed.

(** A token whose payload is no JSON: [verifyToken] passes on what
    [JSON.parse] threw, neither of its own two errors. *)
Example verifyToken_unparsable :
  JWTService.verifyToken Reference.lib Reference.service "{not json" 6000
  = JWTService.Throw (JWTService.JsError "Unexpected token in JSON").
Proof. reflexivity. Qed.

(** C2, amended: a token that is not three segments with a JSON header,
    or whose signature does not validate, fails with ['Invalid token'],
    expired or not; a well-signed token whose expiry is at or before the
    current time fails with ['Token has expired']; a token whose payload
    is no JSON fails with the error of [JSON.parse], passed on as it
    is. *)
Theorem verifyToken_rejects (L : Jwt.Lib) (s : JWTService.t) (token : string) (now : Z) :
  JWTService.well_signed L s token = false \/ JWTService.expired L token now = true ->
  JWTService.verifyToken L s token now =
    JWTService.Throw (JWTService.JsError
      match Jwt.decode L token with
      | Jwt.Unparsable message => message
      | _ => if JWTService.well_signed L s token then "Token has expired" else "Invalid token"
      end).
Proof.
  unfold JWTService.well_signed, JWTService.expired, JWTService.decodeToken,
    JWTService.verifyToken, Jwt.verify.
  destruct (Jwt.decode L token) as [| message | j]; simpl; [reflexivity | reflexivity |].
  destruct (String.eqb (Jwt.jws_signature j) (Jwt.hs256 L (JWTService.secret s) (Jwt.jws_payload j)));
    simpl; [| reflexivity].
  intros [H | H]; [discriminate |].
  destruct (Jwt.exp (Jwt.jws_payload j)) as [e |]; [| discriminate].
  apply Z.leb_le, seconds_le_millis, Z.leb_le in H. rewrite H. reflexivity.
Qed.

Definition alice : Postgres.Row :=
  {| Postgres.id := 1; Postgres.email := "alice@acme.com"; Postgres.name := "Alice";
     Postgres.role := Postgres.super_admin; Postgres.avatar := None;
     Postgres.provider := Some "microsoft"; Postgres.created_at := 1000;
     Postgres.updated_at := 1000; Postgres.last_login := Some 1000;
     Postgres.is_active := true |}.

(** The token [generateToken] gives for [alice] at time 5000. *)
Definition issued : string :=
    match JWTService.generateToken Reference.lib Reference.service alice 5000 with
    | JWTService.Ok token => token
    | JWTService.Throw _ => EmptyString
    end.

Lemma verifyToken_rejects_witness :
  JWTService.verifyToken Reference.lib Reference.service issued 700000000
  = JWTService.Throw (JWTService.JsError "Token has expired").
Proof.
  refine (eq_trans (verifyToken_rejects Reference.lib Reference.service issued 700000000
                      (or_intror _)) _);
    vm_compute; reflexivity.
Defined.

(** C5: a token issued for an identity, verified before it expires, gives
    claims with the identity's id, email and role, the time of issue, and
    an expiry that is the time of issue plus the configured duration. *)
Theorem verify_issue (L : Jwt.Lib) (s : JWTService.t) (user : Postgres.Row) (t0 t1 d : Z) :
  Jwt.lawful L ->
  JWTService.configured_seconds L (JWTService.expiresIn s) = Some d ->
  t1 / 1000 < t0 / 1000 + d ->
  exists token,
    JWTService.generateToken L s user t0 = JWTService.Ok token
    /\ JWTService.verifyToken L s token t1 =
         JWTService.Ok {| Jwt.userId := Postgres.id user;
                          Jwt.email := Postgres.email user;
                          Jwt.role := Postgres.role_to_string (Postgres.role user);
                          Jwt.iat := Some (t0 / 1000);
                          Jwt.exp := Some (t0 / 1000 + d) |}.
Proof.
  intros Hlaw Hd Hlt.
  unfold JWTService.generateToken, Jwt.sign.
  rewrite timespan_configured, Hd. simpl.
  eexists. split; [reflexivity |].
  unfold JWTService.verifyToken, Jwt.verify.
  rewrite Hlaw. simpl. rewrite String.eqb_refl. simpl.
  destruct (Z.leb_spec (t0 / 1000 + d) (t1 / 1000)) as [Hle | _]; [lia | reflexivity].
Qed.

Lemma verify_issue_witness :
  exists token,
    JWTService.generateToken Reference.lib Reference.service alice 5000 = JWTService.Ok token
    /\ JWTService.verifyToken Reference.lib Reference.service token 6000 =
         JWTService.Ok {| Jwt.userId := 1; Jwt.email := "alice@acme.com"; Jwt.role := "super_admin";
                          Jwt.iat := Some 5; Jwt.exp := Some 604805 |}.
Proof.
  exact (verify_issue Reference.lib Reference.service alice 5000 6000 604800
           reference_lawful (eq_refl (Some 604800)) (eq_refl Lt)).
Defined.

(** ** User directory *)

(** What a [VARCHAR(n)] column stores as it is: a text the server
    accepts, of at most [n] characters. *)
Definition fits (n : nat) (s : string) : Prop :=
  Postgres.text_ok s = true /\ (String.length s <= n)%nat.

(** The provider [createOrUpdateUser] stores: [provider || 'microsoft']. *)
Definition provider_or_default (prov : option string) : string :=
  if Js.truthy_opt prov then default EmptyString prov else "microsoft".

Lemma fit_fits (n : nat) (s : string) :
  (String.length s <= n)%nat -> Postgres.fit n s = Some s.
Proof.
  revert n. induction s as [| c s IH]; intros n Hn; [reflexivity |].
  destruct n as [| n]; [simpl in Hn; lia |].
  cbn [Postgres.fit]. rewrite IH by (simpl in Hn; lia). reflexivity.
Qed.

Lemma varchar_fits (n : nat) (s : string) :
  fits n s -> Postgres.varchar n s = Some s.
Proof. intros [Hok Hn]. unfold Postgres.varchar. rewrite Hok. exact (fit_fits n s Hn). Qed.

Lemma fit_length (n : nat) (s s' : string) :
  Postgres.fit n s = Some s' -> (String.length s' <= n)%nat.
Proof.
  revert n s'. induction s as [| c s IH]; intros n s'.
  - intros [= <-]. simpl. lia.
  - destruct n as [| n]; cbn [Postgres.fit].
    + destruct (Postgres.all_blank (String c s)); [intros [= <-]; simpl; lia | discriminate].
    + destruct (Postgres.fit n s) as [t |] eqn:Ht; [| discriminate].
      intros [= <-]. specialize (IH n t Ht). simpl. lia.
Qed.

(** What is stored fits the column. *)
Lemma varchar_length (n : nat) (s s' : string) :
  Postgres.varchar n s = Some s' -> (String.length s' <= n)%nat.
Proof.
  unfold Postgres.varchar. destruct (Postgres.text_ok s); [apply fit_length | discriminate].
Qed.

Lemma varchar_text_ok (n : nat) (s s' : string) :
  Postgres.varchar n s = Some s' -> Postgres.text_ok s = true.
Proof. unfold Postgres.varchar. destruct (Postgres.text_ok s); [reflexivity | discriminate]. Qed.

Lemma getUserByEmail_text_ok (db : Postgres.Db) (mail : string) (u : Postgres.Row) :
  Postgres.getUserByEmail db mail = Some u ->
  Postgres.text_ok mail = true
  /\ head (filter (fun r => Postgres.email r = mail) (Postgres.rows db)) = Some u.
Proof.
  unfold Postgres.getUserByEmail. destruct (Postgres.text_ok mail); [| discriminate].
  intros H. split; [reflexivity | exact H].
Qed.

Lemma getUserByEmail_None (db : Postgres.Db) (mail : string) :
  Postgres.text_ok mail = true ->
  Postgres.getUserByEmail db mail = None -> mail ∉ Postgres.email <$> Postgres.rows db.
Proof.
  unfold Postgres.getUserByEmail. intros -> Hhead Hin.
  apply list_elem_of_fmap in Hin as (r & -> & Hr).
  assert (Hf : r ∈ filter (fun r' => Postgres.email r' = Postgres.email r) (Postgres.rows db))
    by (apply list_elem_of_filter; split; [reflexivity | exact Hr]).
  destruct (filter _ _); [inversion Hf | discriminate].
Qed.

Lemma includes_emails_false (db : Postgres.Db) (mail : string) :
  Postgres.text_ok mail = true ->
  Postgres.getUserByEmail db mail = None ->
  Js.includes (Postgres.email <$> Postgres.rows db) mail = false.
Proof.
  intros Hok Hnone. destruct (Js.includes _ mail) eqn:Hin; [| reflexivity].
  apply includes_In, list_elem_of_In in Hin.
  exfalso. exact (getUserByEmail_None db mail Hok Hnone Hin).
Qed.

(** An email the directory does not hold gets an identity when email and
    name have at most 255 characters and the provider at most 50, none
    of them holds the character of code 0, and the sequence has a value
    left. *)
Lemma createOrUpdateUser_new_succeeds (db : Postgres.Db) (mail nm : string)
    (prov : option string) (now : Z) :
  Postgres.getUserByEmail db mail = None ->
  fits 255 mail -> fits 255 nm -> fits 50 (provider_or_default prov) ->
  Postgres.in_int4 (Postgres.next_id db) = true ->
  exists u,
    Postgres.createOrUpdateUser db mail nm prov now =
      ({| Postgres.rows := Postgres.rows db ++ [u];
          Postgres.next_id := Postgres.next_id db + 1 |}, Some u)
    /\ Postgres.id u = Postgres.next_id db
    /\ Postgres.email u = mail
    /\ Postgres.name u = nm
    /\ Postgres.is_active u = true
    /\ Postgres.role u =
         (if (length (Postgres.rows db) =? 0)%nat then Postgres.super_admin else Postgres.user).
Proof.
  intros Hnew Hmail Hnm Hprov Hseq. unfold Postgres.createOrUpdateUser. rewrite Hnew.
  rewrite (varchar_fits _ _ Hmail), (varchar_fits _ _ Hnm).
  fold (provider_or_default prov). rewrite (varchar_fits _ _ Hprov), Hseq. cbn [negb].
  rewrite (includes_emails_false db mail (proj1 Hmail) Hnew).
  eexists. split; [reflexivity |]. repeat split.
Qed.

(** C7: the identity [createOrUpdateUser] creates for an email the
    directory does not hold is appended to the table, under the email as
    it is stored, and its role is [super_admin] when the directory was
    empty and [user] otherwise; and one is created whenever the columns
    take email, name and provider as they are and the sequence has a
    value left. *)
Theorem createOrUpdateUser_new_role (db : Postgres.Db) (mail nm : string)
    (prov : option string) (now : Z) :
  Postgres.getUserByEmail db mail = None ->
  (forall db' u,
     Postgres.createOrUpdateUser db mail nm prov now = (db', Some u) ->
     db' = {| Postgres.rows := Postgres.rows db ++ [u];
              Postgres.next_id := Postgres.next_id db + 1 |}
     /\ Postgres.varchar 255 mail = Some (Postgres.email u)
     /\ Postgres.role u =
          (if (length (Postgres.rows db) =? 0)%nat then Postgres.super_admin
           else Postgres.user))
  /\ (fits 255 mail -> fits 255 nm -> fits 50 (provider_or_default prov) ->
      Postgres.in_int4 (Postgres.next_id db) = true ->
      exists u,
        Postgres.createOrUpdateUser db mail nm prov now =
          ({| Postgres.rows := Postgres.rows db ++ [u];
              Postgres.next_id := Postgres.next_id db + 1 |}, Some u)
        /\ Postgres.email u = mail
        /\ Postgres.role u =
             (if (length (Postgres.rows db) =? 0)%nat then Postgres.super_admin
              else Postgres.user)).
Proof.
  intros Hnew. split.
  - intros db' u. unfold Postgres.createOrUpdateUser. rewrite Hnew.
    destruct (Postgres.varchar 255 mail) as [mail' |]; [| discriminate].
    destruct (Postgres.varchar 255 nm) as [nm' |]; [| discriminate].
    destruct (Postgres.varchar 50 _) as [prov' |]; [| discriminate].
    destruct (Postgres.in_int4 (Postgres.next_id db)); [| discriminate]. cbn [negb].
    destruct (Js.includes _ mail'); [discriminate |].
    intros [= <- <-]. repeat split.
  - intros Hmail Hnm Hprov Hseq.
    destruct (createOrUpdateUser_new_succeeds db mail nm prov now Hnew Hmail Hnm Hprov Hseq)
      as (u & Heq & _ & Hemail & _ & _ & Hrole).
    exists u. split; [exact Heq |]. split; [exact Hemail | exact Hrole].
Qed.

Lemma createOrUpdateUser_new_role_witness :
  exists u,
    Postgres.createOrUpdateUser Postgres.empty "alice@acme.com" "Alice" None 1000 =
      ({| Postgres.rows := [u]; Postgres.next_id := 2 |}, Some u)
    /\ Postgres.email u = "alice@acme.com"
    /\ Postgres.role u = Postgres.super_admin.
Proof.
  destruct (createOrUpdateUser_new_role Postgres.empty "alice@acme.com" "Alice" None 1000 eq_refl)
    as [_ Hcreates].
  destruct Hcreates as (u & Heq & Hemail & Hrole);
    [split; [reflexivity | simpl; lia] | split; [reflexivity | simpl; lia]
    | split; [reflexivity | simpl; lia] | reflexivity |].
  exists u. split; [exact Heq |]. split; [exact Hemail | exact Hrole].
Defined.

(** The first two identities of a directory: [super_admin], then [user]. *)
Lemma first_two_identities (a b na nb : string) (pa pb : option string) (ta tb : Z) :
  a <> b ->
  fits 255 a -> fits 255 na -> fits 50 (provider_or_default pa) ->
  fits 255 b -> fits 255 nb -> fits 50 (provider_or_default pb) ->
  exists db1 u1 db2 u2,
    Postgres.createOrUpdateUser Postgres.empty a na pa ta = (db1, Some u1)
    /\ Postgres.createOrUpdateUser db1 b nb pb tb = (db2, Some u2)
    /\ Postgres.role u1 = Postgres.super_admin
    /\ Postgres.role u2 = Postgres.user
    /\ Postgres.rows db2 = [u1; u2].
Proof.
  intros Hab Ha Hna Hpa Hb Hnb Hpb.
  assert (Hnone : Postgres.getUserByEmail Postgres.empty a = None)
    by (unfold Postgres.getUserByEmail; destruct (Postgres.text_ok a); reflexivity).
  destruct (createOrUpdateUser_new_succeeds Postgres.empty a na pa ta Hnone Ha Hna Hpa eq_refl)
    as (u1 & H1 & _ & Hmail1 & _ & _ & Hr1).
  assert (Hnew : Postgres.getUserByEmail
                   {| Postgres.rows := Postgres.rows Postgres.empty ++ [u1];
                      Postgres.next_id := Postgres.next_id Postgres.empty + 1 |} b = None).
  { unfold Postgres.getUserByEmail. cbn [Postgres.rows Postgres.empty app].
    rewrite filter_cons_False by congruence. destruct (Postgres.text_ok b); reflexivity. }
  destruct (createOrUpdateUser_new_succeeds _ b nb pb tb Hnew Hb Hnb Hpb eq_refl)
    as (u2 & H2 & _ & _ & _ & _ & Hr2).
  do 4 eexists. split; [exact H1 |]. split; [exact H2 |].
  split; [exact Hr1 |]. split; [exact Hr2 | reflexivity].
Qed.

Lemma update_where_set_login_roles (cond : Postgres.Row -> bool) (nm : string) (now : Z)
    (l : list Postgres.Row) :
  Postgres.role <$> Postgres.update_where cond (Postgres.set_login nm now) l = Postgres.role <$> l.
Proof.
  induction l as [| r l IH]; [reflexivity |].
  cbn [Postgres.update_where map]. rewrite !fmap_cons. f_equal.
  - destruct (cond r); reflexivity.
  - exact IH.
Qed.

(** An email already in the directory keeps its identity and its role:
    only the name and the time stamps change. *)
Lemma createOrUpdateUser_existing_keeps_roles (db : Postgres.Db) (mail nm : string)
    (prov : option string) (now : Z) (u : Postgres.Row) :
  Postgres.getUserByEmail db mail = Some u ->
  Postgres.role <$> Postgres.rows (Postgres.createOrUpdateUser db mail nm prov now).1
  = Postgres.role <$> Postgres.rows db.
Proof.
  intros Hu. unfold Postgres.createOrUpdateUser. rewrite Hu.
  destruct (Postgres.varchar 255 nm) as [nm' |]; [| reflexivity].
  cbn [fst Postgres.rows]. apply update_where_set_login_roles.
Qed.

(** ** Login *)

Definition denied_no_name : Routes.SsoBody :=
  {| Routes.email := Some "x@other.com"; Routes.name := None;
     Routes.provider := None; Routes.avatar := None |}.

(** C4, as stated, fails: a request whose email is denied but which has
    no name is answered 400; the required fields are checked before the
    email is evaluated. *)
Lemma sso_login_denied_without_name :
  OAuth.checkAccessControl acme "x@other.com" = false
  /\ Routes.sso_login acme Reference.lib Reference.service Postgres.empty denied_no_name 5000
     = (Postgres.empty, Routes.Failure 400 "Email and name are required" None).
Proof. split; reflexivity. Qed.

(** C4, amended: a request whose email is denied leaves the directory as
    it was and gets no token; it is answered 403 with the explanatory
    message when it carries a non-empty email and name, and 400 when one of
    them is missing. *)
Theorem sso_login_denied (ac : option OAuth.AccessControl) (L : Jwt.Lib)
    (s : JWTService.t) (db : Postgres.Db) (body : Routes.SsoBody) (now : Z) (mail : string) :
  Routes.email body = Some mail ->
  OAuth.checkAccessControl ac mail = false ->
  Routes.sso_login ac L s db body now =
    (db, if (Js.truthy mail && Js.truthy_opt (Routes.name body))%bool
         then Routes.Failure 403 "Access denied"
                (Some "Your email is not authorized to access this application")
         else Routes.Failure 400 "Email and name are required" None).
Proof.
  intros Hmail Hdenied. unfold Routes.sso_login. rewrite Hmail.
  destruct (Routes.name body) as [nm |]; simpl.
  - destruct (Js.truthy mail), (Js.truthy nm); simpl; try reflexivity.
    rewrite Hdenied. reflexivity.
  - rewrite andb_false_r. reflexivity.
Qed.

Definition denied_body : Routes.SsoBody :=
  {| Routes.email := Some "x@other.com"; Routes.name := Some "X";
     Routes.provider := None; Routes.avatar := None |}.

Lemma sso_login_denied_witness :
  Routes.sso_login acme Reference.lib Reference.service Postgres.empty denied_body 5000
  = (Postgres.empty,
     Routes.Failure 403 "Access denied"
       (Some "Your email is not authorized to access this application")).
Proof.
  exact (sso_login_denied acme Reference.lib Reference.service Postgres.empty denied_body 5000
           "x@other.com" eq_refl eq_refl).
Defined.

(** An allowed email does reach the directory and gets a token. *)
Lemma sso_login_allowed_example :
  exists db' token view,
    Routes.sso_login acme Reference.lib Reference.service Postgres.empty
      {| Routes.email := Some "x@acme.com"; Routes.name := Some "X";
         Routes.provider := None; Routes.avatar := None |} 5000
    = (db', Routes.Session token view)
    /\ length (Postgres.rows db') = 1%nat
    /\ Routes.view_role view = "super_admin".
Proof. do 3 eexists. split; [vm_compute; reflexivity |]. split; reflexivity. Qed.

(** ** The directory's invariant *)

Lemma update_where_ids (cond : Postgres.Row -> bool) (f : Postgres.Row -> Postgres.Row)
    (l : list Postgres.Row) :
  (forall r, Postgres.id (f r) = Postgres.id r) ->
  Postgres.id <$> Postgres.update_where cond f l = Postgres.id <$> l.
Proof.
  intros Hf. induction l as [| r l IH]; [reflexivity |].
  cbn [Postgres.update_where map]. rewrite !fmap_cons. f_equal; [| exact IH].
  destruct (cond r); [apply Hf | reflexivity].
Qed.

Lemma update_where_emails (cond : Postgres.Row -> bool) (f : Postgres.Row -> Postgres.Row)
    (l : list Postgres.Row) :
  (forall r, Postgres.email (f r) = Postgres.email r) ->
  Postgres.email <$> Postgres.update_where cond f l = Postgres.email <$> l.
Proof.
  intros Hf. induction l as [| r l IH]; [reflexivity |].
  cbn [Postgres.update_where map]. rewrite !fmap_cons. f_equal; [| exact IH].
  destruct (cond r); [apply Hf | reflexivity].
Qed.

Lemma update_where_wf (db : Postgres.Db) (cond : Postgres.Row -> bool)
    (f : Postgres.Row -> Postgres.Row) :
  (forall r, Postgres.id (f r) = Postgres.id r) ->
  (forall r, Postgres.email (f r) = Postgres.email r) ->
  Postgres.wf db ->
  Postgres.wf {| Postgres.rows := Postgres.update_where cond f (Postgres.rows db);
                 Postgres.next_id := Postgres.next_id db |}.
Proof.
  intros Hid Hmail [Hids Hemails Hseq]. constructor; cbn [Postgres.rows Postgres.next_id].
  - rewrite update_where_ids by exact Hid. exact Hids.
  - rewrite update_where_emails by exact Hmail. exact Hemails.
  - clear Hids Hemails. unfold Postgres.update_where.
    induction Hseq as [| r l Hr _ IH]; [constructor |].
    cbn [map]. constructor; [| exact IH].
    destruct (cond r); [rewrite Hid |]; exact Hr.
Qed.

Lemma createOrUpdateUser_wf (db : Postgres.Db) (mail nm : string) (prov : option string) (now : Z) :
  Postgres.wf db -> Postgres.wf (Postgres.createOrUpdateUser db mail nm prov now).1.
Proof.
  intros Hwf. unfold Postgres.createOrUpdateUser.
  destruct (Postgres.getUserByEmail db mail) as [u |] eqn:Hu.
  - destruct (Postgres.varchar 255 nm) as [nm' |]; cbn [fst]; [| exact Hwf].
    apply update_where_wf; [reflexivity | reflexivity | exact Hwf].
  - destruct (Postgres.varchar 255 mail) as [mail' |]; [| exact Hwf].
    destruct (Postgres.varchar 255 nm) as [nm' |]; [| exact Hwf].
    destruct (Postgres.varchar 50 _) as [prov' |]; [| exact Hwf].
    destruct (Postgres.in_int4 (Postgres.next_id db)); [| exact Hwf]. cbn [negb].
    destruct Hwf as [Hids Hemails Hseq].
    destruct (Js.includes (Postgres.email <$> Postgres.rows db) mail') eqn:Hin; cbn [fst].
    + constructor; cbn [Postgres.rows Postgres.next_id]; [exact Hids | exact Hemails |].
      eapply Forall_impl; [exact Hseq |]. cbn. intros r Hr. lia.
    + constructor; cbn [Postgres.rows Postgres.next_id].
      * rewrite fmap_app. apply NoDup_app. split; [exact Hids |]. split; [| apply NoDup_singleton].
        intros n Hn Hn'. apply list_elem_of_singleton in Hn'. cbn in Hn'. subst n.
        apply list_elem_of_fmap in Hn as (r & Heq & Hr).
        rewrite Forall_forall in Hseq. specialize (Hseq r Hr). lia.
      * rewrite fmap_app. apply NoDup_app. split; [exact Hemails |]. split; [| apply NoDup_singleton].
        intros m Hm Hm'. apply list_elem_of_singleton in Hm'. cbn in Hm'. subst m.
        apply list_elem_of_In, includes_In in Hm. congruence.
      * apply Forall_app. split.
        -- eapply Forall_impl; [exact Hseq |]. cbn. intros r Hr. lia.
        -- constructor; [cbn; lia | constructor].
Qed.

Lemma updateUserRole_wf (db : Postgres.Db) (p : Postgres.Param) (rl : Postgres.Role) (now : Z) :
  Postgres.wf db -> Postgres.wf (Postgres.updateUserRole db p rl now).1.
Proof.
  intros Hwf. unfold Postgres.updateUserRole.
  destruct (Postgres.as_int4 p); cbn [fst]; [| exact Hwf].
  apply update_where_wf; [reflexivity | reflexivity | exact Hwf].
Qed.

Lemma set_is_active_wf (b : bool) (db : Postgres.Db) (p : Postgres.Param) (now : Z) :
  Postgres.wf db -> Postgres.wf (Postgres.set_is_active b db p now).1.
Proof.
  intros Hwf. unfold Postgres.set_is_active.
  destruct (Postgres.as_int4 p); cbn [fst]; [| exact Hwf].
  apply update_where_wf; [reflexivity | reflexivity | exact Hwf].
Qed.

(** Every reachable directory has unique ids and unique emails. *)
Lemma reachable_wf (db : Postgres.Db) : reachable db -> Postgres.wf db.
Proof.
  induction 1 as [| db mail nm prov now _ IH | db p rl now _ IH | db b p now _ IH].
  - constructor; cbn; constructor.
  - apply createOrUpdateUser_wf, IH.
  - apply updateUserRole_wf, IH.
  - apply set_is_active_wf, IH.
Qed.

(** ** Role updates *)

Definition is_super_admin (r : Postgres.Row) : Prop := Postgres.role r = Postgres.super_admin.

#[local] Instance is_super_admin_dec (r : Postgres.Row) : Decision (is_super_admin r).
Proof. unfold is_super_admin. apply _. Defined.

Lemma count_super_admins_filter (db : Postgres.Db) :
  Postgres.count_super_admins db = length (filter is_super_admin (Postgres.rows db)).
Proof. reflexivity. Qed.

Lemma update_where_elem (cond : Postgres.Row -> bool) (f : Postgres.Row -> Postgres.Row)
    (l : list Postgres.Row) (u : Postgres.Row) :
  u ∈ l -> cond u = false -> u ∈ Postgres.update_where cond f l.
Proof.
  intros Hu Hc. unfold Postgres.update_where.
  apply list_elem_of_In, in_map_iff. exists u. rewrite Hc.
  split; [reflexivity | now apply list_elem_of_In].
Qed.

Lemma update_where_absent (n : Z) (f : Postgres.Row -> Postgres.Row) (l : list Postgres.Row) :
  n ∉ Postgres.id <$> l ->
  Postgres.update_where (fun r => bool_decide (Postgres.id r = n)) f l = l.
Proof.
  induction l as [| r l IH]; [reflexivity |].
  rewrite fmap_cons, not_elem_of_cons. intros [Hr Hl].
  cbn [Postgres.update_where map]. rewrite bool_decide_eq_false_2 by congruence.
  f_equal. apply IH, Hl.
Qed.

(** Giving the role [super_admin] removes no super admin. *)
Lemma promote_count (cond : Postgres.Row -> bool) (now : Z) (l : list Postgres.Row) :
  (length (filter is_super_admin l)
   <= length (filter is_super_admin
                (Postgres.update_where cond (Postgres.set_role Postgres.super_admin now) l)))%nat.
Proof.
  induction l as [| r l IH]; [reflexivity |].
  cbn [Postgres.update_where map]. fold (Postgres.update_where cond (Postgres.set_role Postgres.super_admin now) l).
  rewrite !filter_cons.
  destruct (cond r).
  - rewrite (decide_True (P := is_super_admin (Postgres.set_role _ _ r))) by reflexivity.
    destruct (decide (is_super_admin r)); simpl; lia.
  - destruct (decide (is_super_admin r)); simpl; lia.
Qed.

(** With ids that are unique, an update by id removes at most one. *)
Lemma demote_count (n : Z) (f : Postgres.Row -> Postgres.Row) (l : list Postgres.Row) :
  NoDup (Postgres.id <$> l) ->
  (length (filter is_super_admin l)
   <= S (length (filter is_super_admin
                   (Postgres.update_where (fun r => bool_decide (Postgres.id r = n)) f l))))%nat.
Proof.
  induction l as [| r l IH]; [simpl; lia |].
  rewrite fmap_cons, NoDup_cons. intros [Hr Hl].
  cbn [Postgres.update_where map].
  fold (Postgres.update_where (fun r => bool_decide (Postgres.id r = n)) f l).
  destruct (bool_decide (Postgres.id r = n)) eqn:Hn.
  - apply bool_decide_eq_true in Hn. subst n.
    rewrite (update_where_absent _ _ _ Hr). rewrite !filter_cons.
    destruct (decide (is_super_admin r)), (decide (is_super_admin (f r))); simpl; lia.
  - rewrite !filter_cons. specialize (IH Hl).
    destruct (decide (is_super_admin r)); simpl; lia.
Qed.

Lemma untouched_super_admin (n : Z) (f : Postgres.Row -> Postgres.Row)
    (l : list Postgres.Row) (u : Postgres.Row) :
  u ∈ l -> is_super_admin u -> Postgres.id u <> n ->
  (1 <= length (filter is_super_admin
                  (Postgres.update_where (fun r => bool_decide (Postgres.id r = n)) f l)))%nat.
Proof.
  intros Hu Hsa Hid.
  assert (Hin : u ∈ filter is_super_admin
                  (Postgres.update_where (fun r => bool_decide (Postgres.id r = n)) f l)).
  { apply list_elem_of_filter. split; [exact Hsa |].
    apply update_where_elem; [exact Hu |]. now apply bool_decide_eq_false_2. }
  destruct (filter _ _); [inversion Hin | simpl; lia].
Qed.

(** The super admins the guard lists are those of the table. *)
Lemma listed_super_admins (db : Postgres.Db) :
  filter is_super_admin (Postgres.getAllUsers db) ≡ₚ filter is_super_admin (Postgres.rows db).
Proof. unfold Postgres.getAllUsers. now rewrite merge_sort_Permutation. Qed.

(** When the guard lets a demotion of the only super admin pass, that
    super admin's printed id is not the [userId] of the request. *)
Lemma guard_passes (db : Postgres.Db) (userId : string) :
  Postgres.count_super_admins db = 1%nat ->
  Routes.last_super_admin db userId = false ->
  exists u, u ∈ Postgres.rows db /\ is_super_admin u /\ pretty (Postgres.id u) <> userId.
Proof.
  intros Hone. unfold Routes.last_super_admin.
  pose proof (listed_super_admins db) as Hperm.
  change (filter (fun u => Postgres.role u = Postgres.super_admin) (Postgres.getAllUsers db))
    with (filter is_super_admin (Postgres.getAllUsers db)).
  assert (Hlen : length (filter is_super_admin (Postgres.getAllUsers db)) = 1%nat).
  { rewrite Hperm. exact Hone. }
  rewrite Hlen. simpl.
  destruct (filter is_super_admin (Postgres.getAllUsers db)) as [| u l] eqn:Hf; [discriminate |].
  simpl. intros Hneq. exists u.
  assert (Hin : u ∈ filter is_super_admin (Postgres.rows db)).
  { rewrite <- Hperm. left. }
  apply list_elem_of_filter in Hin as [Hsa Hin].
  split; [exact Hin |]. split; [exact Hsa |].
  intros Heq. rewrite <- Heq, String.eqb_refl in Hneq. discriminate.
Qed.

(** The guard does its work when the [userId] of the path is the printed
    form of the integer it denotes: a directory with a super admin still
    has one after the request. *)
Lemma put_role_keeps_super_admin (db : Postgres.Db) (userId : string)
    (role : option string) (now : Z) :
  reachable db ->
  (forall n, Postgres.int4in userId = Some n -> pretty n = userId) ->
  (1 <= Postgres.count_super_admins db)%nat ->
  (1 <= Postgres.count_super_admins (Routes.put_role db userId role now).1)%nat.
Proof.
  intros Hreach Hcanon Hsa. pose proof (Postgres.wf_ids _ (reachable_wf db Hreach)) as Hnd.
  unfold Routes.put_role.
  destruct (role ≫= Postgres.role_of_string) as [rl |]; [| exact Hsa].
  destruct (negb (Postgres.role_eqb rl Postgres.super_admin)
            && Routes.last_super_admin db userId)%bool eqn:Hguard; [exact Hsa |].
  unfold Postgres.updateUserRole, Postgres.as_int4.
  destruct (Postgres.int4in userId) as [n |] eqn:Hn; [| exact Hsa].
  assert (Hrows : (1 <= length (filter is_super_admin
            (Postgres.update_where (fun r => bool_decide (Postgres.id r = n))
               (Postgres.set_role rl now) (Postgres.rows db))))%nat).
  { destruct rl; simpl in Hguard.
    3: { etransitivity; [exact Hsa |]. apply promote_count. }
    all: destruct (decide (Postgres.count_super_admins db = 1%nat)) as [Hone | Hmany].
    all: try (pose proof (demote_count n (Postgres.set_role Postgres.user now) _ Hnd);
              pose proof (demote_count n (Postgres.set_role Postgres.admin now) _ Hnd);
              rewrite count_super_admins_filter in *; lia).
    all: destruct (guard_passes db userId Hone Hguard) as (u & Hin & Hu & Hid).
    all: apply (untouched_super_admin n _ _ u Hin Hu).
    all: intros Heq; apply Hid; rewrite Heq; apply Hcanon; reflexivity. }
  destruct (0 <? length (filter (fun r => Postgres.id r = n) (Postgres.rows db)))%nat;
    exact Hrows.
Qed.

Definition sole_super_admin : Postgres.Db :=
  {| Postgres.rows := [alice]; Postgres.next_id := 2 |}.

Lemma sole_super_admin_reachable : reachable sole_super_admin.
Proof.
  exact (reachable_login Postgres.empty "alice@acme.com" "Alice" None 1000 reachable_empty).
Qed.

(** The request the guard is written for is refused, and nothing changes. *)
Example put_role_last_super_admin_refused :
  Routes.put_role sole_super_admin "1" (Some "admin") 9000
  = (sole_super_admin,
     Routes.Failure 400 "Cannot remove the last super admin"
       (Some "At least one super admin must exist")).
Proof. vm_compute. reflexivity. Qed.

(** The handler on its own compares the printed id with the text of the
    path, while the update compares integers: handed the [userId] "01",
    the guard sees another user and the update finds user 1. *)
Example put_role_handler_padded_id :
  exists db' u,
    Routes.put_role sole_super_admin "01" (Some "user") 9000
    = (db', Routes.UserBody (Some u))
    /\ Postgres.id u = 1
    /\ Postgres.role u = Postgres.user
    /\ Postgres.count_super_admins db' = 0%nat.
Proof.
  do 2 eexists. split; [vm_compute; reflexivity |]. repeat split.
Qed.

(** ** Middleware: [authenticate] and [optionalAuth] *)

(** A row has the property [is_active], not [isActive]. *)
Lemma prop_isActive (u : Postgres.Row) :
  Postgres.prop u "isActive" = Postgres.Undefined
  /\ Postgres.prop u "is_active" = Postgres.Bool (Postgres.is_active u).
Proof. split; reflexivity. Qed.

Section Authenticate.

Variable L : Jwt.Lib.
Variable s : JWTService.t.
Variable db : Postgres.Db.
Variable req : Middleware.Request.
Variable now : Z.
Variable token : string.
Variable payload : Jwt.JWTPayload.

Hypothesis Htoken : Middleware.extractToken req = Some token.
Hypothesis Hverified : JWTService.verifyToken L s token now = JWTService.Ok payload.

(** A verified token of an identity the directory does not hold: 401. *)
Lemma authenticate_missing :
  Postgres.getUserById db (Postgres.PNum (Jwt.userId payload)) = None ->
  Middleware.authenticate L s db req now = Middleware.respond 401 "User not found" req.
Proof.
  intros Hnone. unfold Middleware.authenticate. rewrite Htoken, Hverified, Hnone. reflexivity.
Qed.

(** A verified token of an identity the directory holds: 403, whatever
    the identity's [is_active] is. *)
Lemma authenticate_found (u : Postgres.Row) :
  Postgres.getUserById db (Postgres.PNum (Jwt.userId payload)) = Some u ->
  Middleware.authenticate L s db req now
  = Middleware.respond 403 "User account is deactivated" req.
Proof.
  intros Hu. unfold Middleware.authenticate. rewrite Htoken, Hverified, Hu. reflexivity.
Qed.

End Authenticate.

(** [optionalAuth] hands every request on as it came. *)
Lemma optionalAuth_next (L : Jwt.Lib) (s : JWTService.t) (db : Postgres.Db)
    (req : Middleware.Request) (now : Z) :
  Middleware.optionalAuth L s db req now = Middleware.next req.
Proof.
  unfold Middleware.optionalAuth.
  destruct (Middleware.extractToken req) as [token |]; [| reflexivity].
  destruct (JWTService.verifyToken L s token now) as [payload | e]; [| reflexivity].
  destruct (Postgres.getUserById db _) as [u |]; reflexivity.
Qed.

(** A request with the token issued for [alice] in its Authorization
    header. *)
Definition alice_request : Middleware.Request :=
  {| Middleware.authorization := Some ("Bearer " +:+ issued);
     Middleware.cookie_auth_token := None;
     Middleware.query_token := None;
     Middleware.x_auth_token := None;
     Middleware.ip := Some "10.0.0.1";
     Middleware.user := None |}.

(** A request with a token that does not parse. *)
Definition malformed_request : Middleware.Request :=
  {| Middleware.authorization := None;
     Middleware.cookie_auth_token := None;
     Middleware.query_token := None;
     Middleware.x_auth_token := Some "not.a.token";
     Middleware.ip := Some "10.0.0.1";
     Middleware.user := None |}.

(** The directory after [alice] has been deactivated. *)
Definition alice_deactivated : Postgres.Db :=
  (Postgres.deactivateUser sole_super_admin (Postgres.PText "1") 2000).1.

(** C6 fails on the code: the token verifies, its identity is in the
    directory and is active, and [authenticate] answers 403 without
    calling [next].  The row the adapter returns has the column name
    [is_active]; the middleware reads [isActive]. *)
Theorem authenticate_active_identity_403 :
  exists payload,
    Middleware.extractToken alice_request = Some issued
    /\ JWTService.verifyToken Reference.lib Reference.service issued 6000 = JWTService.Ok payload
    /\ Postgres.getUserById sole_super_admin (Postgres.PNum (Jwt.userId payload)) = Some alice
    /\ Postgres.is_active alice = true
    /\ Middleware.authenticate Reference.lib Reference.service sole_super_admin alice_request 6000
       = Middleware.respond 403 "User account is deactivated" alice_request.
Proof.
  eexists. split; [vm_compute; reflexivity |].
  split; [vm_compute; reflexivity |].
  split; [vm_compute; reflexivity |].
  split; [reflexivity |].
  vm_compute. reflexivity.
Qed.

(** The other two cases of C6 are as the claim has them. *)
Example authenticate_missing_identity_401 :
  Middleware.authenticate Reference.lib Reference.service Postgres.empty alice_request 6000
  = Middleware.respond 401 "User not found" alice_request.
Proof. vm_compute. reflexivity. Qed.

Example authenticate_deactivated_identity_403 :
  Middleware.authenticate Reference.lib Reference.service alice_deactivated alice_request 6000
  = Middleware.respond 403 "User account is deactivated" alice_request.
Proof. vm_compute. reflexivity. Qed.

(** C9: [optionalAuth] sends no response and calls [next] once, for every
    request; when there is no token, or the token does not verify, the
    request goes on as it came, with no identity attached. *)
Theorem optionalAuth_continues (L : Jwt.Lib) (s : JWTService.t) (db : Postgres.Db)
    (req : Middleware.Request) (now : Z) :
  Middleware.next_calls (Middleware.optionalAuth L s db req now) = 1%nat
  /\ Middleware.reply (Middleware.optionalAuth L s db req now) = None
  /\ (Middleware.extractToken req = None
      \/ (exists token e, Middleware.extractToken req = Some token
                          /\ JWTService.verifyToken L s token now = JWTService.Throw e) ->
      Middleware.request (Middleware.optionalAuth L s db req now) = req).
Proof.
  unfold Middleware.optionalAuth.
  destruct (Middleware.extractToken req) as [token |]; [| repeat split].
  destruct (JWTService.verifyToken L s token now) as [payload | e] eqn:Hv; [| repeat split].
  destruct (Postgres.getUserById db _) as [u |]; [| repeat split].
  destruct (Postgres.truthy_value _); simpl; (split; [reflexivity |]); (split; [reflexivity |]).
  - intros [H | (t & e & [= <-] & H)]; congruence.
  - reflexivity.
Qed.

Lemma optionalAuth_continues_witness :
  Middleware.next_calls
    (Middleware.optionalAuth Reference.lib Reference.service sole_super_admin malformed_request 6000)
  = 1%nat
  /\ Middleware.request
       (Middleware.optionalAuth Reference.lib Reference.service sole_super_admin malformed_request 6000)
     = malformed_request.
Proof.
  destruct (optionalAuth_continues Reference.lib Reference.service sole_super_admin
              malformed_request 6000) as (Hnext & _ & Hreq).
  split; [exact Hnext |]. apply Hreq. right.
  exists "not.a.token", (JWTService.JsError "Invalid token").
  split; vm_compute; reflexivity.
Defined.

(** What stands between a request and an attached identity: no token, a
    token that does not verify, an identity that is not in the directory,
    or one that is not active. *)
Definition no_active_identity (L : Jwt.Lib) (s : JWTService.t) (db : Postgres.Db)
    (req : Middleware.Request) (now : Z) : Prop :=
  match Middleware.extractToken req with
  | None => True
  | Some token =>
      match JWTService.verifyToken L s token now with
      | JWTService.Throw _ => True
      | JWTService.Ok payload =>
          match Postgres.getUserById db (Postgres.PNum (Jwt.userId payload)) with
          | None => True
          | Some u => Postgres.is_active u = false
          end
      end
  end.

(** C10: unless its token verifies and the identity of the token is in the
    directory and active, a request leaves [optionalAuth] with no identity
    attached, and [next] is called; so it is for the valid token of a
    deactivated identity. *)
Theorem optionalAuth_attaches_only_active (L : Jwt.Lib) (s : JWTService.t) (db : Postgres.Db)
    (req : Middleware.Request) (now : Z) :
  no_active_identity L s db req now ->
  Middleware.optionalAuth L s db req now = Middleware.next req.
Proof.
  unfold no_active_identity, Middleware.optionalAuth.
  destruct (Middleware.extractToken req) as [token |]; [| reflexivity].
  destruct (JWTService.verifyToken L s token now) as [payload | e]; [| reflexivity].
  destruct (Postgres.getUserById db _) as [u |]; [| reflexivity].
  intros _. reflexivity.
Qed.

Lemma optionalAuth_attaches_only_active_witness :
  Postgres.is_active <$> Postgres.getUserById alice_deactivated (Postgres.PNum 1) = Some false
  /\ Middleware.optionalAuth Reference.lib Reference.service alice_deactivated alice_request 6000
     = Middleware.next alice_request.
Proof.
  split; [reflexivity |].
  apply (optionalAuth_attaches_only_active Reference.lib Reference.service alice_deactivated
           alice_request 6000).
  vm_compute. reflexivity.
Defined.

(** ** Middleware: the rate limiter *)

(** [ceil_div x d] is the least integer [c] with [x <= d * c]. *)
Lemma ceil_div_spec (x d : Z) :
  0 < d -> d * (Js.ceil_div x d - 1) < x <= d * Js.ceil_div x d.
Proof.
  intros Hd. unfold Js.ceil_div.
  pose proof (Z.div_mod (- x) d ltac:(lia)) as Hdm.
  pose proof (Z.mod_pos_bound (- x) d Hd) as Hb. nia.
Qed.

Lemma ceil_div_pos (x d : Z) : 0 < d -> 0 < x -> 0 < Js.ceil_div x d.
Proof. intros Hd Hx. pose proof (ceil_div_spec x d Hd). nia. Qed.

Lemma ceil_div_nonneg (x d : Z) : 0 < d -> 0 <= x -> 0 <= Js.ceil_div x d.
Proof. intros Hd Hx. pose proof (ceil_div_spec x d Hd). nia. Qed.

(** The answer to a request over the limit. *)
Definition too_many (deadline now : Z) (req : Middleware.Request) : Middleware.Outcome :=
  {| Middleware.reply :=
       Some {| Middleware.status := 429; Middleware.error := "Too many requests";
               Middleware.retryAfter := Some (Js.ceil_div (deadline - now) 1000) |};
     Middleware.next_calls := 0;
     Middleware.request := req |}.

Section RateLimit.

Variables maxRequests windowMs : Z.
Variable req : Middleware.Request.

Let client := Middleware.identifier req.

(** The first request of a client opens a window. *)
Lemma rateLimit_first (requests : gmap string Middleware.Entry) (now : Z) :
  requests !! client = None ->
  Middleware.rateLimit maxRequests windowMs requests req now
  = (<[client := {| Middleware.count := 1; Middleware.resetTime := now + windowMs |}]> requests,
     Middleware.next req).
Proof. intros H. unfold Middleware.rateLimit. fold client. rewrite H. reflexivity. Qed.

(** Up to and including the deadline, a request is counted or refused. *)
Lemma rateLimit_in_window (requests : gmap string Middleware.Entry) (c deadline now : Z) :
  requests !! client = Some {| Middleware.count := c; Middleware.resetTime := deadline |} ->
  now <= deadline ->
  Middleware.rateLimit maxRequests windowMs requests req now
  = if c >=? maxRequests then (requests, too_many deadline now req)
    else (<[client := {| Middleware.count := c + 1; Middleware.resetTime := deadline |}]> requests,
          Middleware.next req).
Proof.
  intros H Hnow. unfold Middleware.rateLimit. fold client. rewrite H. simpl.
  rewrite Z.gtb_ltb. destruct (Z.ltb_spec deadline now); [lia |]. reflexivity.
Qed.

(** After the deadline, a request opens a new window. *)
Lemma rateLimit_after_window (requests : gmap string Middleware.Entry) (c deadline now : Z) :
  requests !! client = Some {| Middleware.count := c; Middleware.resetTime := deadline |} ->
  deadline < now ->
  Middleware.rateLimit maxRequests windowMs requests req now
  = (<[client := {| Middleware.count := 1; Middleware.resetTime := now + windowMs |}]> requests,
     Middleware.next req).
Proof.
  intros H Hnow. unfold Middleware.rateLimit. fold client. rewrite H. simpl.
  rewrite Z.gtb_ltb. destruct (Z.ltb_spec deadline now); [reflexivity | lia].
Qed.

(** The counter of a window after further requests within it. *)
Lemma serve_window_entry (times : list Z) :
  forall (requests : gmap string Middleware.Entry) (c deadline : Z),
  requests !! client = Some {| Middleware.count := c; Middleware.resetTime := deadline |} ->
  Forall (fun t => t <= deadline) times ->
  (Middleware.serve maxRequests windowMs requests req times).1 !! client
  = Some {| Middleware.count := Z.max c (Z.min (c + Z.of_nat (length times)) maxRequests);
            Middleware.resetTime := deadline |}.
Proof.
  induction times as [| t times IH]; intros requests c deadline Hentry Hall.
  - simpl. rewrite Hentry. do 2 f_equal. lia.
  - apply Forall_cons in Hall as [Ht Hall]. cbn [Middleware.serve].
    rewrite (rateLimit_in_window requests c deadline t Hentry Ht).
    destruct (Z.geb_spec c maxRequests) as [Hge | Hlt].
    + specialize (IH requests c deadline Hentry Hall).
      destruct (Middleware.serve maxRequests windowMs requests req times) as [r os].
      simpl in *. rewrite IH. do 2 f_equal. lia.
    + specialize (IH (<[client := {| Middleware.count := c + 1;
                                     Middleware.resetTime := deadline |}]> requests)
                     (c + 1) deadline (lookup_insert_eq _ _ _) Hall).
      destruct (Middleware.serve maxRequests windowMs _ req times) as [r os].
      simpl in *. rewrite IH. do 2 f_equal. lia.
Qed.

(** Requests within the window and under the limit are all handed on. *)
Lemma serve_window_hands_on (times : list Z) :
  forall (requests : gmap string Middleware.Entry) (c deadline : Z),
  requests !! client = Some {| Middleware.count := c; Middleware.resetTime := deadline |} ->
  Forall (fun t => t <= deadline) times ->
  c + Z.of_nat (length times) <= maxRequests ->
  Forall (fun o => o = Middleware.next req)
    (Middleware.serve maxRequests windowMs requests req times).2.
Proof.
  induction times as [| t times IH]; intros requests c deadline Hentry Hall Hlen.
  - constructor.
  - apply Forall_cons in Hall as [Ht Hall]. cbn [Middleware.serve].
    rewrite (rateLimit_in_window requests c deadline t Hentry Ht).
    destruct (Z.geb_spec c maxRequests) as [Hge | Hlt]; [simpl in Hlen; lia |].
    specialize (IH (<[client := {| Middleware.count := c + 1;
                                   Middleware.resetTime := deadline |}]> requests)
                   (c + 1) deadline (lookup_insert_eq _ _ _) Hall).
    destruct (Middleware.serve maxRequests windowMs _ req times) as [r os].
    simpl in *. constructor; [reflexivity |]. apply IH. lia.
Qed.

End RateLimit.

Definition client_request : Middleware.Request :=
  {| Middleware.authorization := None; Middleware.cookie_auth_token := None;
     Middleware.query_token := None; Middleware.x_auth_token := None;
     Middleware.ip := Some "10.0.0.1"; Middleware.user := None |}.

(** The specification's example, [rateLimit(2, 60000)]: two requests are
    handed on, the third is refused with a positive [retryAfter], and
    after the window a request is handed on again. *)
Example rateLimit_2_60000 :
  (Middleware.serve 2 60000 ∅ client_request [1000; 2000; 3000; 61001]).2
  = [Middleware.next client_request; Middleware.next client_request;
     too_many 61000 3000 client_request; Middleware.next client_request]
  /\ Middleware.retryAfter <$> Middleware.reply (too_many 61000 3000 client_request)
     = Some (Some 58).
Proof. split; vm_compute; reflexivity. Qed.

(** C8, as stated, fails: a request over the limit that arrives exactly at
    the reset deadline is still refused, and its [retryAfter] is 0. *)
Lemma rateLimit_retryAfter_zero_at_deadline :
  (Middleware.serve 2 60000 ∅ client_request [1000; 2000; 61000]).2
  = [Middleware.next client_request; Middleware.next client_request;
     {| Middleware.reply :=
          Some {| Middleware.status := 429; Middleware.error := "Too many requests";
                  Middleware.retryAfter := Some 0 |};
        Middleware.next_calls := 0; Middleware.request := client_request |}].
Proof. vm_compute. reflexivity. Qed.

(** C8, amended: for one client, from an empty map.  The first request
    opens a window whose deadline is its arrival time plus [windowMs].
    While no more than [maxRequests] requests have arrived, all at or
    before the deadline, each is handed on.  Once [maxRequests] have
    arrived, a further request at or before the deadline is refused with
    429, is not handed on, and its [retryAfter] is the time to the
    deadline in seconds, rounded up: positive when the request comes
    before the deadline.  A request after the deadline opens a new window
    and is handed on. *)
Theorem rateLimit_window (maxRequests windowMs : Z) (req : Middleware.Request)
    (t1 : Z) (rest : list Z) (t : Z) :
  Forall (fun t' => t' <= t1 + windowMs) rest ->
  (Z.of_nat (length (t1 :: rest)) <= maxRequests ->
     Forall (fun o => o = Middleware.next req)
       (Middleware.serve maxRequests windowMs ∅ req (t1 :: rest)).2)
  /\ (maxRequests <= Z.of_nat (length (t1 :: rest)) -> t <= t1 + windowMs ->
        Middleware.rateLimit maxRequests windowMs
          (Middleware.serve maxRequests windowMs ∅ req (t1 :: rest)).1 req t
        = ((Middleware.serve maxRequests windowMs ∅ req (t1 :: rest)).1,
           too_many (t1 + windowMs) t req)
        /\ 0 <= Js.ceil_div (t1 + windowMs - t) 1000
        /\ (t < t1 + windowMs -> 0 < Js.ceil_div (t1 + windowMs - t) 1000))
  /\ (t1 + windowMs < t ->
        Middleware.rateLimit maxRequests windowMs
          (Middleware.serve maxRequests windowMs ∅ req (t1 :: rest)).1 req t
        = (<[Middleware.identifier req :=
               {| Middleware.count := 1; Middleware.resetTime := t + windowMs |}]>
             (Middleware.serve maxRequests windowMs ∅ req (t1 :: rest)).1,
           Middleware.next req)).
Proof.
  intros Hall.
  set (opened := <[Middleware.identifier req :=
                     {| Middleware.count := 1; Middleware.resetTime := t1 + windowMs |}]>
                   (∅ : gmap string Middleware.Entry)).
  assert (Hopened : opened !! Middleware.identifier req
                    = Some {| Middleware.count := 1; Middleware.resetTime := t1 + windowMs |})
    by apply lookup_insert_eq.
  pose proof (serve_window_entry maxRequests windowMs req rest opened 1 _ Hopened Hall) as Hentry.
  assert (Hserve : Middleware.serve maxRequests windowMs ∅ req (t1 :: rest)
                   = ((Middleware.serve maxRequests windowMs opened req rest).1,
                      Middleware.next req
                        :: (Middleware.serve maxRequests windowMs opened req rest).2)).
  { cbn [Middleware.serve].
    rewrite (rateLimit_first maxRequests windowMs req ∅ t1 (lookup_empty _)).
    fold opened. destruct (Middleware.serve maxRequests windowMs opened req rest); reflexivity. }
  rewrite Hserve. cbn [fst snd]. split; [| split].
  - intros Hlen. constructor; [reflexivity |].
    apply (serve_window_hands_on maxRequests windowMs req rest opened 1 _ Hopened Hall).
    simpl in Hlen. lia.
  - intros Hlen Ht.
    rewrite (rateLimit_in_window maxRequests windowMs req _ _ _ t Hentry Ht).
    destruct (Z.geb_spec (Z.max 1 (Z.min (1 + Z.of_nat (length rest)) maxRequests)) maxRequests)
      as [_ | Hlt]; [| simpl in Hlen; lia].
    split; [reflexivity |]. split.
    + apply ceil_div_nonneg; lia.
    + intros Hbefore. apply ceil_div_pos; lia.
  - intros Ht. exact (rateLimit_after_window maxRequests windowMs req _ _ _ t Hentry Ht).
Qed.

Lemma rateLimit_window_witness :
  Forall (fun o => o = Middleware.next client_request)
    (Middleware.serve 2 60000 ∅ client_request [1000; 2000]).2
  /\ Middleware.rateLimit 2 60000 (Middleware.serve 2 60000 ∅ client_request [1000; 2000]).1
       client_request 3000
     = ((Middleware.serve 2 60000 ∅ client_request [1000; 2000]).1,
        too_many 61000 3000 client_request)
  /\ 0 < Js.ceil_div (1000 + 60000 - 3000) 1000.
Proof.
  destruct (rateLimit_window 2 60000 client_request 1000 [2000] 3000
              ltac:(repeat constructor; lia)) as (Hfirst & Hover & _).
  split; [apply Hfirst; simpl; lia |].
  destruct (Hover ltac:(simpl; lia) ltac:(lia)) as (Hrefused & _ & Hpos).
  split; [exact Hrefused | apply Hpos; lia].
Defined.

(** * Further properties of the sources *)

(** ** Token extraction *)

Lemma split_without (c : ascii) (s : string) :
  Js.occurrences c s = 0%nat -> Js.split c s = [s].
Proof.
  induction s as [| d s IH]; simpl; [reflexivity |].
  destruct (Ascii.eqb d c); [discriminate |].
  intros H. rewrite (IH H). reflexivity.
Qed.

Lemma split_one (c : ascii) (s w : string) :
  Js.split c s = [w] -> s = w /\ Js.occurrences c s = 0%nat.
Proof.
  revert w. induction s as [| d s IH]; intros w; simpl.
  - intros [= <-]. split; reflexivity.
  - destruct (Ascii.eqb d c).
    + intros [= _ Hs]. exfalso. exact (split_nonempty _ _ Hs).
    + destruct (Js.split c s) as [| v vs] eqn:Hs; [exfalso; exact (split_nonempty _ _ Hs) |].
      intros [= <- ->]. destruct (IH v eq_refl) as [-> Hocc].
      split; [reflexivity | exact Hocc].
Qed.

(** Two segments: the text is the first, the separator, the second. *)
Lemma split_two (c : ascii) (s p0 p1 : string) :
  Js.split c s = [p0; p1] ->
  s = String.append p0 (String c p1)
  /\ Js.occurrences c p0 = 0%nat /\ Js.occurrences c p1 = 0%nat.
Proof.
  revert p0. induction s as [| d s IH]; intros p0; simpl; [discriminate |].
  destruct (Ascii.eqb_spec d c) as [-> | Hd].
  - intros [= <- Hs]. destruct (split_one _ _ _ Hs) as [-> Hocc].
    repeat split. exact Hocc.
  - destruct (Js.split c s) as [| v vs] eqn:Hs; [discriminate |].
    intros [= <- ->]. destruct (IH v eq_refl) as (-> & Hv & Hp1).
    split; [reflexivity |]. split; [| exact Hp1].
    simpl. destruct (Ascii.eqb_spec d c); [contradiction | exact Hv].
Qed.

Lemma split_append (c : ascii) (a b : string) :
  Js.occurrences c a = 0%nat ->
  Js.split c (String.append a (String c b)) = a :: Js.split c b.
Proof.
  induction a as [| d a IH]; simpl.
  - intros _. rewrite Ascii.eqb_refl. reflexivity.
  - destruct (Ascii.eqb d c); [discriminate |].
    intros H. rewrite (IH H). reflexivity.
Qed.

(** [extractTokenFromHeader] gives a token exactly for the headers
    [Bearer <token>] whose token has no blank in it; the token may be
    empty. *)
Theorem extractTokenFromHeader_bearer (h : option string) (t : string) :
  JWTService.extractTokenFromHeader h = Some t <->
  h = Some (String.append "Bearer " t) /\ Js.occurrences " " t = 0%nat.
Proof.
  unfold JWTService.extractTokenFromHeader. split.
  - destruct h as [h |]; [| discriminate].
    destruct (Js.truthy h); simpl; [| discriminate].
    destruct (Js.split " " h) as [| p0 [| p1 [| p2 ps]]] eqn:Hs; try discriminate.
    destruct (String.eqb_spec p0 "Bearer") as [-> | _]; [| discriminate].
    intros [= ->]. destruct (split_two _ _ _ _ Hs) as (-> & _ & Hocc).
    split; [reflexivity | exact Hocc].
  - intros [-> Hocc].
    change (String.append "Bearer " t) with (String.append "Bearer" (String " " t)).
    rewrite split_append by reflexivity. rewrite (split_without _ _ Hocc). reflexivity.
Qed.

(** The specification's three examples. *)
Example extractTokenFromHeader_examples :
  JWTService.extractTokenFromHeader (Some "Bearer abc123") = Some "abc123"
  /\ JWTService.extractTokenFromHeader (Some "Token abc123") = None
  /\ JWTService.extractTokenFromHeader None = None.
Proof. repeat split. Qed.

(** [extractToken] never gives an empty token, and gives none exactly
    when none of its four sources holds a non-empty one. *)
Theorem extractToken_non_empty (req : Middleware.Request) :
  (forall t, Middleware.extractToken req = Some t -> Js.truthy t = true)
  /\ (Middleware.extractToken req = None <->
        Js.truthy_opt (JWTService.extractTokenFromHeader (Middleware.authorization req)) = false
        /\ Js.truthy_opt (Middleware.cookie_auth_token req) = false
        /\ Js.truthy_opt (Middleware.query_token req) = false
        /\ Js.truthy_opt (Middleware.x_auth_token req) = false).
Proof.
  unfold Middleware.extractToken.
  destruct (JWTService.extractTokenFromHeader (Middleware.authorization req)) as [h |] eqn:Hh;
    destruct (Middleware.cookie_auth_token req) as [c |];
    destruct (Middleware.query_token req) as [q |];
    destruct (Middleware.x_auth_token req) as [x |]; simpl;
    repeat match goal with
           | |- context [Js.truthy ?s] => destruct (Js.truthy s) eqn:?
           end;
    (split; [intros t Ht; try discriminate; injection Ht as <-; assumption
            | split; [intros Hn; try discriminate; repeat split | intros (? & ? & ? & ?); congruence]]).
Qed.

(** The Authorization header comes first: its token, when not empty, is
    the one extracted, whatever the cookie, the query and the custom
    header hold. *)
Theorem extractToken_header_first (req : Middleware.Request) (t : string) :
  Middleware.authorization req = Some (String.append "Bearer " t) ->
  Js.occurrences " " t = 0%nat ->
  t <> EmptyString ->
  Middleware.extractToken req = Some t.
Proof.
  intros Hauth Hocc Ht. unfold Middleware.extractToken, JWTService.extractTokenFromHeader.
  rewrite Hauth.
  change (String.append "Bearer " t) with (String.append "Bearer" (String " " t)).
  rewrite split_append by reflexivity. rewrite (split_without _ _ Hocc).
  destruct t; [contradiction | reflexivity].
Qed.

Lemma extractToken_header_first_witness :
  Middleware.extractToken
    {| Middleware.authorization := Some "Bearer abc123";
       Middleware.cookie_auth_token := Some "from-cookie";
       Middleware.query_token := Some "from-query";
       Middleware.x_auth_token := Some "from-header";
       Middleware.ip := None; Middleware.user := None |}
  = Some "abc123".
Proof.
  apply (extractToken_header_first _ "abc123"); [reflexivity | reflexivity | discriminate].
Defined.

Lemma extractToken_non_empty_witness :
  Js.truthy "not.a.token" = true.
Proof.
  exact (proj1 (extractToken_non_empty malformed_request) "not.a.token" eq_refl).
Defined.

(** ** What [authenticate] answers *)

(** [verifyToken], case by case: structure, signature, expiry. *)
Lemma verifyToken_cases (L : Jwt.Lib) (s : JWTService.t) (token : string) (now : Z) :
  JWTService.verifyToken L s token now =
    match Jwt.decode L token with
    | Jwt.NotJws => JWTService.Throw (JWTService.JsError "Invalid token")
    | Jwt.Unparsable message => JWTService.Throw (JWTService.JsError message)
    | Jwt.Parsed j =>
        if String.eqb (Jwt.jws_signature j) (Jwt.hs256 L (JWTService.secret s) (Jwt.jws_payload j))
        then match Jwt.exp (Jwt.jws_payload j) with
             | Some e => if e <=? now / 1000
                         then JWTService.Throw (JWTService.JsError "Token has expired")
                         else JWTService.Ok (Jwt.jws_payload j)
             | None => JWTService.Ok (Jwt.jws_payload j)
             end
        else JWTService.Throw (JWTService.JsError "Invalid token")
    end.
Proof.
  unfold JWTService.verifyToken, Jwt.verify.
  destruct (Jwt.decode L token) as [| message | j]; [reflexivity | reflexivity |].
  destruct (String.eqb _ _); simpl; [| reflexivity].
  destruct (Jwt.exp (Jwt.jws_payload j)) as [e |]; [| reflexivity].
  destruct (e <=? now / 1000); reflexivity.
Qed.

Lemma verifyToken_messages (L : Jwt.Lib) (s : JWTService.t) (token : string) (now : Z)
    (m : string) :
  JWTService.verifyToken L s token now = JWTService.Throw (JWTService.JsError m) ->
  m = "Token has expired" \/ m = "Invalid token" \/ Jwt.decode L token = Jwt.Unparsable m.
Proof.
  rewrite verifyToken_cases.
  destruct (Jwt.decode L token) as [| message | j].
  - intros [= <-]. right. left. reflexivity.
  - intros [= <-]. right. right. reflexivity.
  - destruct (String.eqb _ _); [| intros [= <-]; right; left; reflexivity].
    destruct (Jwt.exp (Jwt.jws_payload j)) as [e |]; [| discriminate].
    destruct (e <=? now / 1000); [intros [= <-]; left; reflexivity | discriminate].
Qed.

(** A verified payload is the payload of the token, and the token was
    signed with the service's secret. *)
Lemma verifyToken_Ok (L : Jwt.Lib) (s : JWTService.t) (token : string) (now : Z)
    (p : Jwt.JWTPayload) :
  JWTService.verifyToken L s token now = JWTService.Ok p ->
  JWTService.decodeToken L token = Some p /\ JWTService.well_signed L s token = true.
Proof.
  rewrite verifyToken_cases. unfold JWTService.decodeToken, JWTService.well_signed.
  destruct (Jwt.decode L token) as [| message | j]; [discriminate | discriminate |].
  destruct (String.eqb _ _); [| discriminate].
  destruct (Jwt.exp (Jwt.jws_payload j)) as [e |].
  - destruct (e <=? now / 1000); [discriminate |]. intros [= <-]. split; reflexivity.
  - intros [= <-]. split; reflexivity.
Qed.

(** What [authenticate] answers a thrown error with. *)
Lemma authenticate_thrown (L : Jwt.Lib) (s : JWTService.t) (db : Postgres.Db)
    (req : Middleware.Request) (now : Z) (token m : string) :
  Middleware.extractToken req = Some token ->
  JWTService.verifyToken L s token now = JWTService.Throw (JWTService.JsError m) ->
  Middleware.authenticate L s db req now =
    if String.eqb m "Token has expired" then Middleware.respond 401 "Token has expired" req
    else if String.eqb m "Invalid token" then Middleware.respond 401 "Invalid token" req
    else Middleware.respond 500 "Authentication failed" req.
Proof. intros Htok Hv. unfold Middleware.authenticate. rewrite Htok, Hv. reflexivity. Qed.

Lemma authenticate_stops (L : Jwt.Lib) (s : JWTService.t) (db : Postgres.Db)
    (req : Middleware.Request) (now : Z) :
  exists st err,
    Middleware.authenticate L s db req now = Middleware.respond st err req
    /\ (st = 401 \/ st = 403 \/ st = 500).
Proof.
  destruct (Middleware.extractToken req) as [token |] eqn:Htok.
  - destruct (JWTService.verifyToken L s token now) as [payload | [m]] eqn:Hv.
    + destruct (Postgres.getUserById db (Postgres.PNum (Jwt.userId payload))) as [u |] eqn:Hu.
      * exists 403, "User account is deactivated". split; [| right; left; reflexivity].
        exact (authenticate_found L s db req now token payload Htok Hv u Hu).
      * exists 401, "User not found". split; [| left; reflexivity].
        exact (authenticate_missing L s db req now token payload Htok Hv Hu).
    + rewrite (authenticate_thrown L s db req now token m Htok Hv).
      destruct (String.eqb m "Token has expired");
        [do 2 eexists; split; [reflexivity | left; reflexivity] |].
      destruct (String.eqb m "Invalid token");
        do 2 eexists; (split; [reflexivity |]); [left | right; right]; reflexivity.
  - unfold Middleware.authenticate. rewrite Htok.
    do 2 eexists. split; [reflexivity | left; reflexivity].
Qed.

(** A 500 comes only from a token whose payload is no JSON. *)
Lemma authenticate_500 (L : Jwt.Lib) (s : JWTService.t) (db : Postgres.Db)
    (req : Middleware.Request) (now : Z) (r : Middleware.Reply) :
  Middleware.reply (Middleware.authenticate L s db req now) = Some r ->
  Middleware.status r = 500 ->
  exists token message,
    Middleware.extractToken req = Some token /\ Jwt.decode L token = Jwt.Unparsable message.
Proof.
  destruct (Middleware.extractToken req) as [token |] eqn:Htok.
  - destruct (JWTService.verifyToken L s token now) as [payload | [m]] eqn:Hv.
    + destruct (Postgres.getUserById db (Postgres.PNum (Jwt.userId payload))) as [u |] eqn:Hu.
      * rewrite (authenticate_found L s db req now token payload Htok Hv u Hu).
        intros [= <-]. discriminate.
      * rewrite (authenticate_missing L s db req now token payload Htok Hv Hu).
        intros [= <-]. discriminate.
    + rewrite (authenticate_thrown L s db req now token m Htok Hv).
      destruct (String.eqb_spec m "Token has expired") as [-> | Hne1]; [intros [= <-]; discriminate |].
      destruct (String.eqb_spec m "Invalid token") as [-> | Hne2]; [intros [= <-]; discriminate |].
      intros _ _. exists token, m. split; [reflexivity |].
      destruct (verifyToken_messages L s token now m Hv) as [H | [H | H]];
        [contradiction | contradiction | exact H].
  - unfold Middleware.authenticate. rewrite Htok. intros [= <-]. discriminate.
Qed.

(** As the sources stand, [authenticate] hands no request on: it answers
    every request itself and leaves the request without an identity
    attached.  The answer is 401 or 403, or else 500, and that only for
    a token whose payload is no JSON. *)
Theorem authenticate_never_continues (L : Jwt.Lib) (s : JWTService.t) (db : Postgres.Db)
    (req : Middleware.Request) (now : Z) :
  Middleware.next_calls (Middleware.authenticate L s db req now) = 0%nat
  /\ Middleware.request (Middleware.authenticate L s db req now) = req
  /\ exists r, Middleware.reply (Middleware.authenticate L s db req now) = Some r
               /\ (Middleware.status r = 401 \/ Middleware.status r = 403
                   \/ (Middleware.status r = 500
                       /\ exists token message,
                            Middleware.extractToken req = Some token
                            /\ Jwt.decode L token = Jwt.Unparsable message)).
Proof.
  pose proof (authenticate_500 L s db req now) as H500.
  destruct (authenticate_stops L s db req now) as (st & err & Heq & Hst).
  rewrite Heq in *.
  split; [reflexivity |]. split; [reflexivity |].
  eexists. split; [reflexivity |]. cbn [Middleware.status].
  destruct Hst as [-> | [-> | ->]]; [left; reflexivity | right; left; reflexivity |].
  right. right. split; [reflexivity |]. exact (H500 _ eq_refl eq_refl).
Qed.

(** A request whose token is malformed, wrongly signed or expired is
    answered 401, with the message of the token service; a token whose
    payload is no JSON is answered with the error of [JSON.parse]
    matched against the two messages, which gives 500 for any other
    message. *)
Theorem authenticate_bad_token (L : Jwt.Lib) (s : JWTService.t) (db : Postgres.Db)
    (req : Middleware.Request) (now : Z) (token : string) :
  Middleware.extractToken req = Some token ->
  JWTService.well_signed L s token = false \/ JWTService.expired L token now = true ->
  Middleware.authenticate L s db req now =
    match Jwt.decode L token with
    | Jwt.Unparsable message =>
        if String.eqb message "Token has expired" then Middleware.respond 401 "Token has expired" req
        else if String.eqb message "Invalid token" then Middleware.respond 401 "Invalid token" req
        else Middleware.respond 500 "Authentication failed" req
    | _ =>
        Middleware.respond 401
          (if JWTService.well_signed L s token then "Token has expired" else "Invalid token") req
    end.
Proof.
  intros Htok Hbad. unfold Middleware.authenticate. rewrite Htok, verifyToken_cases.
  unfold JWTService.well_signed, JWTService.expired, JWTService.decodeToken in *.
  destruct (Jwt.decode L token) as [| message | j]; simpl in *; [reflexivity | reflexivity |].
  destruct (String.eqb _ _); simpl in *; [| reflexivity].
  destruct Hbad as [Hbad | Hbad]; [discriminate |].
  destruct (Jwt.exp (Jwt.jws_payload j)) as [e |]; [| discriminate].
  apply Z.leb_le, seconds_le_millis, Z.leb_le in Hbad. rewrite Hbad. reflexivity.
Qed.

(** A token whose payload is no JSON is answered 500. *)
Example authenticate_unparsable :
  Middleware.authenticate Reference.lib Reference.service sole_super_admin
    {| Middleware.authorization := Some "Bearer {not-json";
       Middleware.cookie_auth_token := None; Middleware.query_token := None;
       Middleware.x_auth_token := None; Middleware.ip := None; Middleware.user := None |} 6000
  = Middleware.respond 500 "Authentication failed"
      {| Middleware.authorization := Some "Bearer {not-json";
         Middleware.cookie_auth_token := None; Middleware.query_token := None;
         Middleware.x_auth_token := None; Middleware.ip := None; Middleware.user := None |}.
Proof. vm_compute. reflexivity. Qed.

Lemma authenticate_bad_token_witness :
  Middleware.authenticate Reference.lib Reference.service sole_super_admin alice_request 700000000
  = Middleware.respond 401 "Token has expired" alice_request.
Proof.
  refine (eq_trans (authenticate_bad_token Reference.lib Reference.service sole_super_admin
                      alice_request 700000000 issued _ (or_intror _)) _);
    vm_compute; reflexivity.
Defined.

(** ** Role gates *)

Lemma role_is_spec (u : Postgres.Row) (rl : Postgres.Role) :
  Middleware.role_is u (Postgres.role_to_string rl) = Postgres.role_eqb (Postgres.role u) rl.
Proof. unfold Middleware.role_is. destruct u as [? ? ? [] ? ? ? ? ? ?], rl; reflexivity. Qed.

(** [requireAdmin] and [requireSuperAdmin] by the role of the attached
    identity: no identity, 401; [requireAdmin] lets [admin] and
    [super_admin] through, [requireSuperAdmin] only [super_admin]; the
    others get 403. *)
Theorem require_by_role (req : Middleware.Request) :
  Middleware.requireAdmin req =
    match Middleware.user req with
    | None => Middleware.respond 401 "Authentication required" req
    | Some u =>
        match Postgres.role u with
        | Postgres.user => Middleware.respond 403 "Admin access required" req
        | _ => Middleware.next req
        end
    end
  /\ Middleware.requireSuperAdmin req =
    match Middleware.user req with
    | None => Middleware.respond 401 "Authentication required" req
    | Some u =>
        match Postgres.role u with
        | Postgres.super_admin => Middleware.next req
        | _ => Middleware.respond 403 "Super admin access required" req
        end
    end.
Proof.
  unfold Middleware.requireAdmin, Middleware.requireSuperAdmin.
  destruct (Middleware.user req) as [u |]; [| split; reflexivity].
  change "super_admin" with (Postgres.role_to_string Postgres.super_admin).
  change "admin" with (Postgres.role_to_string Postgres.admin).
  rewrite !role_is_spec. destruct (Postgres.role u); split; reflexivity.
Qed.

(** Whoever passes [requireSuperAdmin] passes [requireAdmin]. *)
Theorem requireSuperAdmin_implies_requireAdmin (req : Middleware.Request) :
  Middleware.next_calls (Middleware.requireSuperAdmin req) = 1%nat ->
  Middleware.requireAdmin req = Middleware.next req.
Proof.
  unfold Middleware.requireAdmin, Middleware.requireSuperAdmin.
  destruct (Middleware.user req) as [u |]; [| discriminate].
  change "super_admin" with (Postgres.role_to_string Postgres.super_admin).
  change "admin" with (Postgres.role_to_string Postgres.admin).
  rewrite !role_is_spec. destruct (Postgres.role u); simpl; try discriminate. reflexivity.
Qed.

Lemma requireSuperAdmin_implies_requireAdmin_witness :
  Middleware.requireAdmin (Middleware.attach alice client_request)
  = Middleware.next (Middleware.attach alice client_request).
Proof.
  exact (requireSuperAdmin_implies_requireAdmin (Middleware.attach alice client_request) eq_refl).
Defined.

(** ** The rest of the token service *)

Module JWTServiceExt.

(** [generateRefreshToken(user)]: the same claims, signed with the same
    secret, with the fixed span ['30d']. *)
Definition generateRefreshToken (L : Jwt.Lib) (s : JWTService.t) (user : Postgres.Row) (now : Z)
    : JWTService.Result string :=
  match Jwt.sign L (Postgres.id user) (Postgres.email user)
          (Postgres.role_to_string (Postgres.role user)) (JWTService.secret s)
          (Jwt.Span "30d") now with
  | inr token => JWTService.Ok token
  | inl (Jwt.TokenExpiredError m) | inl (Jwt.JsonWebTokenError m) | inl (Jwt.PlainError m) =>
      JWTService.Throw (JWTService.JsError m)
  end.

(** [getTokenExpiration(token)]: [decoded?.exp || null]. *)
Definition getTokenExpiration (L : Jwt.Lib) (token : string) : option Z :=
  match JWTService.decodeToken L token ≫= Jwt.exp with
  | Some e => if e =? 0 then None else Some e
  | None => None
  end.

(** [isTokenExpired(token)] at time [now]. *)
Definition isTokenExpired (L : Jwt.Lib) (token : string) (now : Z) : bool :=
  match getTokenExpiration L token with
  | None => true
  | Some e => now >=? e * 1000
  end.

End JWTServiceExt.

(** A refresh token is accepted by [verifyToken] like a session token,
    until thirty days after its issue, whatever expiry the service is
    configured with. *)
Theorem refresh_token_verifies (L : Jwt.Lib) (s : JWTService.t) (user : Postgres.Row)
    (t0 t1 m : Z) :
  Jwt.lawful L ->
  Jwt.ms L "30d" = Some m ->
  t1 / 1000 < t0 / 1000 + m / 1000 ->
  exists token,
    JWTServiceExt.generateRefreshToken L s user t0 = JWTService.Ok token
    /\ JWTService.verifyToken L s token t1 =
         JWTService.Ok {| Jwt.userId := Postgres.id user;
                          Jwt.email := Postgres.email user;
                          Jwt.role := Postgres.role_to_string (Postgres.role user);
                          Jwt.iat := Some (t0 / 1000);
                          Jwt.exp := Some (t0 / 1000 + m / 1000) |}.
Proof.
  intros Hlaw Hms Hlt.
  unfold JWTServiceExt.generateRefreshToken, Jwt.sign, Jwt.timespan.
  rewrite Hms. simpl. eexists. split; [reflexivity |].
  rewrite verifyToken_cases, Hlaw. simpl. rewrite String.eqb_refl.
  destruct (Z.leb_spec (t0 / 1000 + m / 1000) (t1 / 1000)); [lia | reflexivity].
Qed.

(** Eight days after its issue, the seven-day session token of [alice]
    is refused and her refresh token is still accepted. *)
Definition eight_days : Z := 5000 + 8 * 24 * 60 * 60 * 1000.

Lemma refresh_token_verifies_witness :
  exists token,
    JWTServiceExt.generateRefreshToken Reference.lib Reference.service alice 5000
    = JWTService.Ok token
    /\ JWTService.verifyToken Reference.lib Reference.service token eight_days =
         JWTService.Ok {| Jwt.userId := 1; Jwt.email := "alice@acme.com";
                          Jwt.role := "super_admin";
                          Jwt.iat := Some 5; Jwt.exp := Some 2592005 |}.
Proof.
  exact (refresh_token_verifies Reference.lib Reference.service alice 5000 eight_days 2592000000
           reference_lawful eq_refl eq_refl).
Defined.

(** For a well-signed token that carries an expiry, and a clock at or
    after the epoch, [isTokenExpired] says what [verifyToken] does: it is
    true exactly when [verifyToken] fails with ['Token has expired']. *)
Theorem isTokenExpired_agrees (L : Jwt.Lib) (s : JWTService.t) (token : string) (now e : Z) :
  JWTService.well_signed L s token = true ->
  JWTService.decodeToken L token ≫= Jwt.exp = Some e ->
  0 <= now ->
  (JWTServiceExt.isTokenExpired L token now = true <->
   JWTService.verifyToken L s token now = JWTService.Throw (JWTService.JsError "Token has expired")).
Proof.
  intros Hsig Hexp Hnow.
  unfold JWTServiceExt.isTokenExpired, JWTServiceExt.getTokenExpiration.
  rewrite Hexp, verifyToken_cases.
  unfold JWTService.well_signed, JWTService.decodeToken in *.
  destruct (Jwt.decode L token) as [| message | j]; simpl in *; [discriminate | discriminate |].
  rewrite Hsig, Hexp.
  assert (H0 : 0 <= now / 1000) by (apply Z.div_pos; lia).
  destruct (Z.eqb_spec e 0) as [-> | Hne].
  - destruct (Z.leb_spec 0 (now / 1000)); [split; reflexivity | lia].
  - rewrite Z.geb_leb.
    destruct (Z.leb_spec (e * 1000) now) as [Hle | Hgt];
      destruct (Z.leb_spec e (now / 1000)) as [Hle' | Hgt']; try (split; congruence).
    + apply seconds_le_millis in Hle. lia.
    + apply seconds_le_millis in Hle'. lia.
Qed.

Lemma isTokenExpired_agrees_witness :
  JWTServiceExt.isTokenExpired Reference.lib issued 700000000 = true.
Proof.
  apply (isTokenExpired_agrees Reference.lib Reference.service issued 700000000 604805);
    [vm_compute; reflexivity | vm_compute; reflexivity | lia |].
  vm_compute. reflexivity.
Defined.

(** A token without an expiry, like one that does not parse, is reported
    expired; [verifyToken] accepts a well-signed token without an expiry
    at any time. *)
Theorem isTokenExpired_without_expiry (L : Jwt.Lib) (s : JWTService.t) (token : string)
    (now : Z) :
  JWTService.decodeToken L token ≫= Jwt.exp = None ->
  JWTServiceExt.isTokenExpired L token now = true
  /\ (JWTService.well_signed L s token = true ->
      exists p, JWTService.verifyToken L s token now = JWTService.Ok p).
Proof.
  intros Hexp. unfold JWTServiceExt.isTokenExpired, JWTServiceExt.getTokenExpiration.
  rewrite Hexp. split; [reflexivity |].
  rewrite verifyToken_cases. unfold JWTService.well_signed, JWTService.decodeToken in *.
  destruct (Jwt.decode L token) as [| message | j]; simpl in *; [discriminate | discriminate |].
  intros ->. rewrite Hexp. eexists. reflexivity.
Qed.

(** A token of the reference serialisation that carries no expiry. *)
Definition eternal : string :=
  Reference.ref_encode
    (let p := {| Jwt.userId := 1; Jwt.email := "alice@acme.com"; Jwt.role := "super_admin";
                 Jwt.iat := Some 5; Jwt.exp := None |} in
     {| Jwt.jws_payload := p; Jwt.jws_signature := Reference.ref_hs256 Reference.secret p |}).

Lemma isTokenExpired_without_expiry_witness :
  JWTServiceExt.isTokenExpired Reference.lib eternal 6000 = true
  /\ exists p, JWTService.verifyToken Reference.lib Reference.service eternal 6000
               = JWTService.Ok p.
Proof.
  destruct (isTokenExpired_without_expiry Reference.lib Reference.service eternal 6000)
    as [Hexpired Hverifies]; [vm_compute; reflexivity |].
  split; [exact Hexpired |]. apply Hverifies. vm_compute. reflexivity.
Defined.

(** ** The rest of the user directory *)

Module PostgresExt.

(** [deleteUser(userId)]: [DELETE FROM users WHERE id = $1]; the new table
    and whether a row was deleted. *)
Definition deleteUser (db : Postgres.Db) (p : Postgres.Param) : Postgres.Db * bool :=
  match Postgres.as_int4 p with
  | Some n =>
      ({| Postgres.rows := filter (fun r => Postgres.id r <> n) (Postgres.rows db);
          Postgres.next_id := Postgres.next_id db |},
       (0 <? length (filter (fun r => Postgres.id r = n) (Postgres.rows db)))%nat)
  | None => (db, false)
  end.

End PostgresExt.

Section UpdateWhere.

Variable P : Postgres.Row -> Prop.
Context `{!forall r, Decision (P r)}.
Variable f : Postgres.Row -> Postgres.Row.

(** The first row a condition selects, after an update of the rows it
    selects that keeps them selected. *)
Lemma head_filter_update (l : list Postgres.Row) :
  (forall r, P r -> P (f r)) ->
  head (filter P (Postgres.update_where (fun r => bool_decide (P r)) f l))
  = f <$> head (filter P l).
Proof.
  intros Hf. induction l as [| r l IH]; [reflexivity |].
  cbn [Postgres.update_where map]. fold (Postgres.update_where (fun r => bool_decide (P r)) f l).
  destruct (decide (P r)) as [Hr | Hr].
  - rewrite bool_decide_eq_true_2 by exact Hr.
    rewrite (filter_cons_True P _ _ (Hf r Hr)), (filter_cons_True P _ _ Hr). reflexivity.
  - rewrite bool_decide_eq_false_2 by exact Hr.
    rewrite !(filter_cons_False P _ _ Hr). exact IH.
Qed.

(** Where the condition selects nothing, nothing changes. *)
Lemma update_where_none (l : list Postgres.Row) :
  filter P l = [] -> Postgres.update_where (fun r => bool_decide (P r)) f l = l.
Proof.
  induction l as [| r l IH]; [reflexivity |].
  cbn [Postgres.update_where map]. fold (Postgres.update_where (fun r => bool_decide (P r)) f l).
  destruct (decide (P r)) as [Hr | Hr].
  - rewrite (filter_cons_True P _ _ Hr). discriminate.
  - rewrite (filter_cons_False P _ _ Hr), bool_decide_eq_false_2 by exact Hr.
    intros Hnil. rewrite (IH Hnil). reflexivity.
Qed.

(** Rows the condition does not select stay in the table. *)
Lemma update_where_keeps (l : list Postgres.Row) (r : Postgres.Row) :
  r ∈ l -> ~ P r -> r ∈ Postgres.update_where (fun r => bool_decide (P r)) f l.
Proof.
  intros Hr Hn. apply update_where_elem; [exact Hr |]. now apply bool_decide_eq_false_2.
Qed.

End UpdateWhere.

Lemma update_where_length (cond : Postgres.Row -> bool) (f : Postgres.Row -> Postgres.Row)
    (l : list Postgres.Row) :
  length (Postgres.update_where cond f l) = length l.
Proof. unfold Postgres.update_where. apply length_map. Qed.

Lemma head_filter_None {A} (P : A -> Prop) `{!forall x, Decision (P x)} (l : list A) :
  head (filter P l) = None -> filter P l = [].
Proof. destruct (filter P l); [reflexivity | discriminate]. Qed.

Lemma length_filter_pos {A} (P : A -> Prop) `{!forall x, Decision (P x)} (l : list A) :
  (0 <? length (filter P l))%nat = true <-> is_Some (head (filter P l)).
Proof.
  destruct (filter P l); simpl; split; intros Hpos.
  - discriminate.
  - destruct Hpos as [? Hpos]. discriminate.
  - eexists. reflexivity.
  - reflexivity.
Qed.

Lemma fit_text_ok (n : nat) (s s' : string) :
  Postgres.text_ok s = true -> Postgres.fit n s = Some s' -> Postgres.text_ok s' = true.
Proof.
  revert n s'. induction s as [| c s IH]; intros n s' Hok.
  - intros [= <-]. reflexivity.
  - cbn [Postgres.text_ok] in Hok. apply andb_true_iff in Hok as [Hc Hs].
    destruct n as [| n]; cbn [Postgres.fit].
    + destruct (Postgres.all_blank (String c s)); [intros [= <-]; reflexivity | discriminate].
    + destruct (Postgres.fit n s) as [t |] eqn:Ht; [| discriminate].
      intros [= <-]. cbn [Postgres.text_ok]. rewrite Hc, (IH n t Hs Ht). reflexivity.
Qed.

(** What a column stores is a text the server accepts as a parameter. *)
Lemma varchar_stored_ok (n : nat) (s s' : string) :
  Postgres.varchar n s = Some s' -> Postgres.text_ok s' = true.
Proof.
  unfold Postgres.varchar. destruct (Postgres.text_ok s) eqn:Hok; [| discriminate].
  exact (fit_text_ok n s s' Hok).
Qed.

(** A text of at most [n] characters is stored as it is or refused. *)
Lemma varchar_short (n : nat) (s s' : string) :
  Postgres.varchar n s = Some s' -> (String.length s <= n)%nat -> s' = s.
Proof.
  unfold Postgres.varchar. destruct (Postgres.text_ok s); [| discriminate].
  intros Hfit Hn. rewrite (fit_fits n s Hn) in Hfit. congruence.
Qed.

Lemma filter_email_nil (l : list Postgres.Row) (m : string) :
  Js.includes (Postgres.email <$> l) m = false ->
  filter (fun r => Postgres.email r = m) l = [].
Proof.
  intros Hin. destruct (filter (fun r => Postgres.email r = m) l) as [| r l'] eqn:Hf;
    [reflexivity |].
  assert (Hr : r ∈ filter (fun r => Postgres.email r = m) l) by (rewrite Hf; left).
  apply list_elem_of_filter in Hr as [Hm Hr].
  assert (Htrue : Js.includes (Postgres.email <$> l) m = true).
  { apply includes_In, list_elem_of_In, list_elem_of_fmap. exists r. split; [now rewrite Hm | exact Hr]. }
  congruence.
Qed.

(** The row an email selects holds that email. *)
Lemma head_filter_email (l : list Postgres.Row) (mail : string) (u : Postgres.Row) :
  head (filter (fun r => Postgres.email r = mail) l) = Some u -> Postgres.email u = mail.
Proof.
  intros Hu.
  assert (Hin : u ∈ filter (fun r => Postgres.email r = mail) l).
  { destruct (filter _ _); [discriminate | injection Hu as ->; left]. }
  apply list_elem_of_filter in Hin as [Hmail _]. exact Hmail.
Qed.

(** The login of an email the directory knows, with a name that the
    column takes. *)
Lemma upsert_existing (db : Postgres.Db) (mail nm nm' : string) (prov : option string)
    (now : Z) (u : Postgres.Row) :
  Postgres.getUserByEmail db mail = Some u ->
  Postgres.varchar 255 nm = Some nm' ->
  (Postgres.createOrUpdateUser db mail nm prov now).2 = Some (Postgres.set_login nm' now u)
  /\ Postgres.getUserByEmail (Postgres.createOrUpdateUser db mail nm prov now).1 mail
     = Some (Postgres.set_login nm' now u)
  /\ Postgres.email u = mail.
Proof.
  intros Hu Hnm. unfold Postgres.createOrUpdateUser. rewrite Hu, Hnm. cbn [fst snd].
  destruct (getUserByEmail_text_ok db mail u Hu) as [Hok Hhead].
  unfold Postgres.getUserByEmail. rewrite Hok. cbn [Postgres.rows].
  rewrite (head_filter_update (fun r => Postgres.email r = mail)) by (intros r Hr; exact Hr).
  rewrite Hhead. split; [reflexivity |]. split; [reflexivity |].
  exact (head_filter_email _ _ _ Hhead).
Qed.

(** A refused statement writes no row. *)
Lemma upsert_refused_rows (db : Postgres.Db) (mail nm : string) (prov : option string)
    (now : Z) :
  (Postgres.createOrUpdateUser db mail nm prov now).2 = None ->
  Postgres.rows (Postgres.createOrUpdateUser db mail nm prov now).1 = Postgres.rows db.
Proof.
  destruct (Postgres.getUserByEmail db mail) as [u0 |] eqn:Hu.
  - destruct (Postgres.varchar 255 nm) as [nm' |] eqn:Hnm.
    + destruct (upsert_existing db mail nm nm' prov now u0 Hu Hnm) as (-> & _). discriminate.
    + unfold Postgres.createOrUpdateUser. rewrite Hu, Hnm. reflexivity.
  - unfold Postgres.createOrUpdateUser. rewrite Hu.
    destruct (Postgres.varchar 255 mail); [| reflexivity].
    destruct (Postgres.varchar 255 nm); [| reflexivity].
    destruct (Postgres.varchar 50 _); [| reflexivity].
    destruct (Postgres.in_int4 (Postgres.next_id db)); [| reflexivity]. cbn [negb].
    destruct (Js.includes _ _); [reflexivity | discriminate].
Qed.

(** A login whose email, name and provider the columns take as they are
    gives the identity the directory then holds under the email, as long
    as the sequence has a value left. *)
Lemma upsert_fits (db : Postgres.Db) (mail nm : string) (prov : option string) (now : Z) :
  fits 255 mail -> fits 255 nm -> fits 50 (provider_or_default prov) ->
  Postgres.in_int4 (Postgres.next_id db) = true ->
  exists u,
    (Postgres.createOrUpdateUser db mail nm prov now).2 = Some u
    /\ Postgres.getUserByEmail (Postgres.createOrUpdateUser db mail nm prov now).1 mail = Some u
    /\ Postgres.email u = mail
    /\ Postgres.name u = nm
    /\ Postgres.last_login u = Some now
    /\ Postgres.updated_at u = now.
Proof.
  intros Hmail Hnm Hprov Hseq.
  destruct (Postgres.getUserByEmail db mail) as [u0 |] eqn:Hu.
  - destruct (upsert_existing db mail nm nm prov now u0 Hu (varchar_fits _ _ Hnm))
      as (Hres & Hlook & Hemail).
    eexists. split; [exact Hres |]. split; [exact Hlook |]. repeat split. exact Hemail.
  - destruct (createOrUpdateUser_new_succeeds db mail nm prov now Hu Hmail Hnm Hprov Hseq)
      as (u & Heq & _ & Hemail & Hname & _ & _).
    exists u. rewrite Heq. cbn [fst snd]. split; [reflexivity |].
    assert (Hlast : Postgres.last_login u = Some now /\ Postgres.updated_at u = now).
    { unfold Postgres.createOrUpdateUser in Heq. rewrite Hu in Heq.
      rewrite (varchar_fits _ _ Hmail), (varchar_fits _ _ Hnm) in Heq.
      fold (provider_or_default prov) in Heq. rewrite (varchar_fits _ _ Hprov), Hseq in Heq.
      cbn [negb] in Heq.
      rewrite (includes_emails_false db mail (proj1 Hmail) Hu) in Heq.
      injection Heq as _ <-. split; reflexivity. }
    split; [| tauto].
    unfold Postgres.getUserByEmail in *. rewrite (proj1 Hmail) in *. cbn [Postgres.rows].
    rewrite filter_app, (head_filter_None _ _ Hu). cbn [app].
    rewrite filter_cons_True by exact Hemail. reflexivity.
Qed.

(** [createOrUpdateUser] gives an identity or changes no row.  The
    identity it gives is the one the directory then holds under its
    email, which is the given email when that has at most 255 characters;
    its name is the given name as the column stores it, and the time of
    the call is its last login.  It gives an identity whenever email and
    name have at most 255 characters, the provider at most 50, none of
    them holds the character of code 0, and the sequence has a value
    left. *)
Theorem createOrUpdateUser_lookup (db : Postgres.Db) (mail nm : string)
    (prov : option string) (now : Z) :
  match (Postgres.createOrUpdateUser db mail nm prov now).2 with
  | Some u =>
      Postgres.getUserByEmail (Postgres.createOrUpdateUser db mail nm prov now).1
        (Postgres.email u) = Some u
      /\ Postgres.varchar 255 nm = Some (Postgres.name u)
      /\ Postgres.last_login u = Some now
      /\ Postgres.updated_at u = now
      /\ ((String.length mail <= 255)%nat -> Postgres.email u = mail)
  | None =>
      Postgres.rows (Postgres.createOrUpdateUser db mail nm prov now).1 = Postgres.rows db
  end
  /\ (fits 255 mail -> fits 255 nm -> fits 50 (provider_or_default prov) ->
      Postgres.in_int4 (Postgres.next_id db) = true ->
      is_Some (Postgres.createOrUpdateUser db mail nm prov now).2).
Proof.
  split.
  - destruct (Postgres.getUserByEmail db mail) as [u0 |] eqn:Hu.
    + destruct (Postgres.varchar 255 nm) as [nm' |] eqn:Hnm.
      * destruct (upsert_existing db mail nm nm' prov now u0 Hu Hnm) as (-> & Hlook & Hemail).
        cbn [Postgres.set_login Postgres.email Postgres.name Postgres.last_login
               Postgres.updated_at].
        rewrite Hemail. split; [exact Hlook |]. repeat split.
      * unfold Postgres.createOrUpdateUser. rewrite Hu, Hnm. reflexivity.
    + unfold Postgres.createOrUpdateUser. rewrite Hu.
      destruct (Postgres.varchar 255 mail) as [mail' |] eqn:Hm; [| reflexivity].
      destruct (Postgres.varchar 255 nm) as [nm' |] eqn:Hnm; [| reflexivity].
      destruct (Postgres.varchar 50 _) as [prov' |]; [| reflexivity].
      destruct (Postgres.in_int4 (Postgres.next_id db)); [| reflexivity]. cbn [negb].
      destruct (Js.includes (Postgres.email <$> Postgres.rows db) mail') eqn:Hin;
        cbn [fst snd Postgres.rows]; [reflexivity |].
      cbn [Postgres.email Postgres.name Postgres.last_login Postgres.updated_at].
      split; [| repeat split; intros Hlen; exact (varchar_short _ _ _ Hm Hlen)].
      unfold Postgres.getUserByEmail. rewrite (varchar_stored_ok _ _ _ Hm). cbn [Postgres.rows].
      rewrite filter_app, (filter_email_nil _ _ Hin). cbn [app].
      rewrite filter_cons_True by reflexivity. reflexivity.
  - intros Hmail Hnm Hprov Hseq.
    destruct (upsert_fits db mail nm prov now Hmail Hnm Hprov Hseq) as (u & Hres & _).
    exists u. exact Hres.
Qed.

Lemma createOrUpdateUser_lookup_witness :
  is_Some (Postgres.createOrUpdateUser Postgres.empty "alice@acme.com" "Alice" None 1000).2.
Proof.
  apply (proj2 (createOrUpdateUser_lookup Postgres.empty "alice@acme.com" "Alice" None 1000));
    [split; [reflexivity | simpl; lia] | split; [reflexivity | simpl; lia]
    | split; [reflexivity | simpl; lia] | reflexivity].
Defined.

(** An email of 259 characters gets no identity: the statement is
    refused, nothing is returned and the table is as it was. *)
Definition long_email : string :=
  String.append (string_of_list_ascii (repeat "a"%char 250)) "@acme.com".

Example createOrUpdateUser_long_email :
  String.length long_email = 259%nat
  /\ Postgres.createOrUpdateUser sole_super_admin long_email "Bob" None 9000
     = (sole_super_admin, None).
Proof. split; vm_compute; reflexivity. Qed.

(** The login of an email the directory knows adds no row and leaves
    every other row as it was.  When the column takes the name, the
    identity of the email is returned under that name, with its id, its
    role and its active flag as they were; when it does not, the
    statement is refused: nothing is returned and the directory is as it
    was. *)
Theorem createOrUpdateUser_existing (db : Postgres.Db) (mail nm : string)
    (prov : option string) (now : Z) (u : Postgres.Row) :
  Postgres.getUserByEmail db mail = Some u ->
  length (Postgres.rows (Postgres.createOrUpdateUser db mail nm prov now).1)
  = length (Postgres.rows db)
  /\ (forall r, r ∈ Postgres.rows db -> Postgres.email r <> mail ->
                r ∈ Postgres.rows (Postgres.createOrUpdateUser db mail nm prov now).1)
  /\ match Postgres.varchar 255 nm with
     | Some nm' =>
         exists u',
           (Postgres.createOrUpdateUser db mail nm prov now).2 = Some u'
           /\ Postgres.id u' = Postgres.id u
           /\ Postgres.email u' = mail
           /\ Postgres.name u' = nm'
           /\ Postgres.role u' = Postgres.role u
           /\ Postgres.is_active u' = Postgres.is_active u
     | None => Postgres.createOrUpdateUser db mail nm prov now = (db, None)
     end.
Proof.
  intros Hu. destruct (getUserByEmail_text_ok db mail u Hu) as [Hok Hhead].
  unfold Postgres.createOrUpdateUser. rewrite Hu.
  destruct (Postgres.varchar 255 nm) as [nm' |]; cbn [fst snd Postgres.rows].
  - split; [apply update_where_length |]. split.
    + intros r Hr Hne.
      apply (update_where_keeps (fun r => Postgres.email r = mail)); assumption.
    + rewrite (head_filter_update (fun r => Postgres.email r = mail)) by (intros r Hr; exact Hr).
      rewrite Hhead. eexists. split; [reflexivity |].
      cbn [Postgres.set_login Postgres.id Postgres.email Postgres.name Postgres.role
             Postgres.is_active].
      repeat split. exact (head_filter_email _ _ _ Hhead).
  - split; [reflexivity |]. split; [intros r Hr _; exact Hr | reflexivity].
Qed.

Lemma createOrUpdateUser_existing_witness :
  exists u',
    (Postgres.createOrUpdateUser alice_deactivated "alice@acme.com" "Alice B" None 9000).2
    = Some u'
    /\ Postgres.name u' = "Alice B"
    /\ Postgres.role u' = Postgres.super_admin
    /\ Postgres.is_active u' = false.
Proof.
  destruct (createOrUpdateUser_existing alice_deactivated "alice@acme.com" "Alice B" None 9000
              (Postgres.set_active false 2000 alice) eq_refl)
    as (_ & _ & u' & Hret & _ & _ & Hname & Hrole & Hactive).
  exists u'. split; [exact Hret |]. split; [exact Hname |]. split; [exact Hrole | exact Hactive].
Defined.

(** In every directory the handlers can produce, ids are unique, emails
    are unique, and every id was drawn from the sequence: it is at least
    1 and below the next one. *)
Lemma reachable_ids_positive (db : Postgres.Db) :
  reachable db ->
  1 <= Postgres.next_id db /\ Forall (fun r => 1 <= Postgres.id r) (Postgres.rows db).
Proof.
  assert (Hupd : forall cond f l,
            (forall r, Postgres.id (f r) = Postgres.id r) ->
            Forall (fun r => 1 <= Postgres.id r) l ->
            Forall (fun r => 1 <= Postgres.id r) (Postgres.update_where cond f l)).
  { intros cond f l Hf Hl. unfold Postgres.update_where.
    induction Hl as [| r l Hr _ IH]; [constructor |].
    cbn [map]. constructor; [| exact IH]. destruct (cond r); [rewrite Hf |]; exact Hr. }
  induction 1 as [| db mail nm prov now _ [IHn IH] | db p rl now _ [IHn IH]
                  | db b p now _ [IHn IH]].
  - split; [cbn; lia | constructor].
  - unfold Postgres.createOrUpdateUser.
    destruct (Postgres.getUserByEmail db mail).
    + destruct (Postgres.varchar 255 nm); cbn [fst Postgres.rows Postgres.next_id];
        [| split; assumption].
      split; [exact IHn | apply Hupd; [reflexivity | exact IH]].
    + destruct (Postgres.varchar 255 mail); [| split; assumption].
      destruct (Postgres.varchar 255 nm); [| split; assumption].
      destruct (Postgres.varchar 50 _); [| split; assumption].
      destruct (Postgres.in_int4 (Postgres.next_id db)); [| split; assumption]. cbn [negb].
      destruct (Js.includes _ _); cbn [fst Postgres.rows Postgres.next_id].
      * split; [lia | exact IH].
      * split; [lia |]. apply Forall_app. split; [exact IH |].
        constructor; [cbn; exact IHn | constructor].
  - unfold Postgres.updateUserRole.
    destruct (Postgres.as_int4 p); cbn [fst Postgres.rows Postgres.next_id];
      [| split; assumption].
    split; [exact IHn | apply Hupd; [reflexivity | exact IH]].
  - unfold Postgres.set_is_active.
    destruct (Postgres.as_int4 p); cbn [fst Postgres.rows Postgres.next_id];
      [| split; assumption].
    split; [exact IHn | apply Hupd; [reflexivity | exact IH]].
Qed.

Theorem reachable_directory_invariant (db : Postgres.Db) :
  reachable db ->
  NoDup (Postgres.id <$> Postgres.rows db)
  /\ NoDup (Postgres.email <$> Postgres.rows db)
  /\ Forall (fun r => 1 <= Postgres.id r < Postgres.next_id db) (Postgres.rows db).
Proof.
  intros Hreach. destruct (reachable_wf db Hreach) as [Hids Hemails Hseq].
  destruct (reachable_ids_positive db Hreach) as [_ Hpos].
  split; [exact Hids |]. split; [exact Hemails |].
  rewrite Forall_forall in *. intros r Hr. split; [apply Hpos | apply Hseq]; exact Hr.
Qed.

Lemma reachable_directory_invariant_witness :
  NoDup (Postgres.id <$> Postgres.rows sole_super_admin)
  /\ NoDup (Postgres.email <$> Postgres.rows sole_super_admin)
  /\ Forall (fun r => 1 <= Postgres.id r < 2) (Postgres.rows sole_super_admin).
Proof. exact (reachable_directory_invariant sole_super_admin sole_super_admin_reachable). Defined.

(** An id finds at most one identity, and so does an email. *)
Lemma unique_by_id (db : Postgres.Db) (u v : Postgres.Row) :
  NoDup (Postgres.id <$> Postgres.rows db) ->
  u ∈ Postgres.rows db -> v ∈ Postgres.rows db -> Postgres.id u = Postgres.id v -> u = v.
Proof.
  intros Hnd. induction (Postgres.rows db) as [| r l IH]; [intros Hu; inversion Hu |].
  rewrite fmap_cons, NoDup_cons in Hnd. destruct Hnd as [Hr Hl].
  rewrite !elem_of_cons. intros [-> | Hu] [-> | Hv] Heq.
  - reflexivity.
  - exfalso. apply Hr. rewrite Heq. apply list_elem_of_fmap. eauto.
  - exfalso. apply Hr. rewrite <- Heq. apply list_elem_of_fmap. eauto.
  - exact (IH Hl Hu Hv Heq).
Qed.

Lemma updateUserRole_cases (db : Postgres.Db) (p : Postgres.Param)
    (rl : Postgres.Role) (now : Z) :
  ((Postgres.updateUserRole db p rl now).2 = true ->
     exists u, Postgres.getUserById (Postgres.updateUserRole db p rl now).1 p = Some u
               /\ Postgres.role u = rl)
  /\ ((Postgres.updateUserRole db p rl now).2 = false ->
        (Postgres.updateUserRole db p rl now).1 = db).
Proof.
  unfold Postgres.updateUserRole, Postgres.getUserById.
  destruct (Postgres.as_int4 p) as [n |] eqn:Hp; cbn [fst snd Postgres.rows];
    [| split; [discriminate | reflexivity]].
  destruct (head (filter (fun r => Postgres.id r = n) (Postgres.rows db))) as [u |] eqn:Hu.
  - split.
    + intros _. rewrite (head_filter_update (fun r => Postgres.id r = n)) by (intros r Hr; exact Hr).
      rewrite Hu. eexists. split; reflexivity.
    + intros Hno. exfalso.
      assert (Hpos : (0 <? length (filter (fun r => Postgres.id r = n)
                                      (Postgres.rows db)))%nat = true)
        by (apply length_filter_pos; eauto).
      congruence.
  - split.
    + intros Hok. apply length_filter_pos in Hok as [u' Hu']. congruence.
    + intros _. rewrite (update_where_none (fun r => Postgres.id r = n))
        by (apply head_filter_None; exact Hu).
      destruct db; reflexivity.
Qed.

(** [updateUserRole]: when it reports success, the identity of the id has
    the new role; when it reports failure, the table is as it was; rows
    with another id are kept in either case. *)
Theorem updateUserRole_effect (db : Postgres.Db) (p : Postgres.Param)
    (rl : Postgres.Role) (now : Z) :
  ((Postgres.updateUserRole db p rl now).2 = true ->
     exists u, Postgres.getUserById (Postgres.updateUserRole db p rl now).1 p = Some u
               /\ Postgres.role u = rl)
  /\ ((Postgres.updateUserRole db p rl now).2 = false ->
        (Postgres.updateUserRole db p rl now).1 = db /\ Postgres.getUserById db p = None)
  /\ (forall r, r ∈ Postgres.rows db -> Postgres.as_int4 p <> Some (Postgres.id r) ->
                r ∈ Postgres.rows (Postgres.updateUserRole db p rl now).1).
Proof.
  unfold Postgres.updateUserRole, Postgres.getUserById.
  destruct (Postgres.as_int4 p) as [n |] eqn:Hp; cbn [fst snd Postgres.rows].
  - split; [| split].
    + intros Hok. apply length_filter_pos in Hok as [u Hu].
      cbn [Postgres.rows].
      rewrite (head_filter_update (fun r => Postgres.id r = n)) by (intros r Hr; exact Hr).
      rewrite Hu. eexists. split; reflexivity.
    + intros Hno.
      destruct (head (filter (fun r => Postgres.id r = n) (Postgres.rows db))) as [u |] eqn:Hu.
      * exfalso. assert (Hpos : (0 <? length (filter (fun r => Postgres.id r = n)
                                                (Postgres.rows db)))%nat = true)
          by (apply length_filter_pos; eauto).
        congruence.
      * split; [| reflexivity].
        rewrite (update_where_none (fun r => Postgres.id r = n))
          by (apply head_filter_None; exact Hu).
        destruct db; reflexivity.
    + intros r Hr Hne. apply (update_where_keeps (fun r => Postgres.id r = n)); [exact Hr |].
      congruence.
  - split; [discriminate |]. split; [intros _; split; reflexivity |].
    intros r Hr _. exact Hr.
Qed.

Lemma updateUserRole_effect_witness :
  exists u, Postgres.getUserById
              (Postgres.updateUserRole sole_super_admin (Postgres.PText "1") Postgres.admin 9000).1
              (Postgres.PText "1") = Some u
            /\ Postgres.role u = Postgres.admin.
Proof.
  exact (proj1 (updateUserRole_effect sole_super_admin (Postgres.PText "1") Postgres.admin 9000)
           eq_refl).
Defined.

(** [deactivateUser] and [reactivateUser] set the flag of the identity of
    the id and nothing else: no role changes, and no row is added or
    removed. *)
Theorem set_is_active_effect (b : bool) (db : Postgres.Db) (p : Postgres.Param) (now : Z) :
  ((Postgres.set_is_active b db p now).2 = true ->
     exists u, Postgres.getUserById (Postgres.set_is_active b db p now).1 p = Some u
               /\ Postgres.is_active u = b)
  /\ ((Postgres.set_is_active b db p now).2 = false ->
        (Postgres.set_is_active b db p now).1 = db /\ Postgres.getUserById db p = None)
  /\ Postgres.role <$> Postgres.rows (Postgres.set_is_active b db p now).1
     = Postgres.role <$> Postgres.rows db
  /\ Postgres.count_super_admins (Postgres.set_is_active b db p now).1
     = Postgres.count_super_admins db.
Proof.
  assert (Hroles : forall cond l,
            Postgres.role <$> Postgres.update_where cond (Postgres.set_active b now) l
            = Postgres.role <$> l).
  { intros cond l. induction l as [| r l IH]; [reflexivity |].
    cbn [Postgres.update_where map]. rewrite !fmap_cons. f_equal; [| exact IH].
    destruct (cond r); reflexivity. }
  assert (Hcount : forall cond l,
            length (filter is_super_admin
                      (Postgres.update_where cond (Postgres.set_active b now) l))
            = length (filter is_super_admin l)).
  { intros cond l. induction l as [| r l IH]; [reflexivity |].
    cbn [Postgres.update_where map].
    fold (Postgres.update_where cond (Postgres.set_active b now) l).
    rewrite !filter_cons.
    destruct (cond r); destruct (decide (is_super_admin r)) as [Hr | Hr].
    - rewrite decide_True by exact Hr. simpl. rewrite IH. reflexivity.
    - rewrite decide_False by exact Hr. exact IH.
    - simpl. rewrite IH. reflexivity.
    - exact IH. }
  unfold Postgres.set_is_active, Postgres.getUserById.
  destruct (Postgres.as_int4 p) as [n |] eqn:Hp; cbn [fst snd Postgres.rows].
  - split; [| split; [| split]].
    + intros Hok. apply length_filter_pos in Hok as [u Hu].
      cbn [Postgres.rows].
      rewrite (head_filter_update (fun r => Postgres.id r = n)) by (intros r Hr; exact Hr).
      rewrite Hu. eexists. split; reflexivity.
    + intros Hno.
      destruct (head (filter (fun r => Postgres.id r = n) (Postgres.rows db))) as [u |] eqn:Hu.
      * exfalso. assert (Hpos : (0 <? length (filter (fun r => Postgres.id r = n)
                                                (Postgres.rows db)))%nat = true)
          by (apply length_filter_pos; eauto).
        congruence.
      * split; [| reflexivity].
        rewrite (update_where_none (fun r => Postgres.id r = n))
          by (apply head_filter_None; exact Hu).
        destruct db; reflexivity.
    + apply Hroles.
    + rewrite !count_super_admins_filter. apply Hcount.
  - split; [discriminate |]. split; [intros _; split; reflexivity |].
    split; reflexivity.
Qed.

Lemma set_is_active_effect_witness :
  exists u, Postgres.getUserById
              (Postgres.deactivateUser sole_super_admin (Postgres.PText "1") 2000).1
              (Postgres.PText "1") = Some u
            /\ Postgres.is_active u = false.
Proof.
  exact (proj1 (set_is_active_effect false sole_super_admin (Postgres.PText "1") 2000) eq_refl).
Defined.

Lemma filter_id_ne_absent (n : Z) (l : list Postgres.Row) :
  n ∉ Postgres.id <$> l -> filter (fun r => Postgres.id r <> n) l = l.
Proof.
  induction l as [| r l IH]; [reflexivity |].
  rewrite fmap_cons, not_elem_of_cons. intros [Hr Hl].
  rewrite filter_cons_True by congruence. rewrite (IH Hl). reflexivity.
Qed.

(** Deleting by a unique id takes exactly one row away. *)
Lemma delete_one (u : Postgres.Row) (l : list Postgres.Row) :
  NoDup (Postgres.id <$> l) -> u ∈ l ->
  (length (filter is_super_admin (filter (fun r => Postgres.id r <> Postgres.id u) l))
   + (if decide (is_super_admin u) then 1 else 0))%nat
  = length (filter is_super_admin l)
  /\ S (length (filter (fun r => Postgres.id r <> Postgres.id u) l)) = length l.
Proof.
  induction l as [| r l IH]; [intros _ Hu; inversion Hu |].
  rewrite fmap_cons, NoDup_cons. intros [Hr Hl] Hu.
  apply elem_of_cons in Hu as [<- | Hu].
  - rewrite filter_cons_False by (intros H; apply H; reflexivity).
    rewrite (filter_id_ne_absent _ _ Hr), filter_cons.
    destruct (decide (is_super_admin u)); simpl; split; lia.
  - assert (Hne : Postgres.id r <> Postgres.id u).
    { intros Heq. apply Hr. rewrite Heq. apply list_elem_of_fmap. eauto. }
    rewrite filter_cons_True by exact Hne. destruct (IH Hl Hu) as [IH1 IH2].
    rewrite !filter_cons. destruct (decide (is_super_admin r)); simpl; split; lia.
Qed.

(** [deleteUser]: afterwards the id finds no identity; it reports success
    exactly when the id found one before; rows with another id are kept.
    There is no guard: with unique ids, deleting an identity takes one
    row away, and one super admin when the identity was one. *)
Theorem deleteUser_effect (db : Postgres.Db) (p : Postgres.Param) :
  Postgres.getUserById (PostgresExt.deleteUser db p).1 p = None
  /\ ((PostgresExt.deleteUser db p).2 = true <-> is_Some (Postgres.getUserById db p))
  /\ (forall r, r ∈ Postgres.rows db -> Postgres.as_int4 p <> Some (Postgres.id r) ->
                r ∈ Postgres.rows (PostgresExt.deleteUser db p).1)
  /\ (forall u, NoDup (Postgres.id <$> Postgres.rows db) ->
                Postgres.getUserById db p = Some u ->
                S (length (Postgres.rows (PostgresExt.deleteUser db p).1))
                = length (Postgres.rows db)
                /\ (Postgres.count_super_admins (PostgresExt.deleteUser db p).1
                    + (if decide (is_super_admin u) then 1 else 0))%nat
                   = Postgres.count_super_admins db).
Proof.
  unfold PostgresExt.deleteUser, Postgres.getUserById.
  destruct (Postgres.as_int4 p) as [n |] eqn:Hp; cbn [fst snd Postgres.rows].
  - split; [| split; [| split]].
    + destruct (filter (fun r => Postgres.id r = n) (filter _ (Postgres.rows db)))
        as [| r l] eqn:Hf; [reflexivity |].
      assert (Hr : r ∈ filter (fun r => Postgres.id r = n)
                     (filter (fun r => Postgres.id r <> n) (Postgres.rows db)))
        by (rewrite Hf; left).
      apply list_elem_of_filter in Hr as [Heq Hr].
      apply list_elem_of_filter in Hr as [Hne _]. contradiction.
    + apply length_filter_pos.
    + intros r Hr Hne. apply list_elem_of_filter. split; [congruence | exact Hr].
    + intros u Hnd Hu.
      assert (Hin : u ∈ filter (fun r => Postgres.id r = n) (Postgres.rows db)).
      { destruct (filter _ _); [discriminate | injection Hu as ->; left]. }
      apply list_elem_of_filter in Hin as [<- Hin].
      destruct (delete_one u _ Hnd Hin) as [Hsa Hlen].
      split; [exact Hlen |]. rewrite !count_super_admins_filter. cbn [Postgres.rows]. exact Hsa.
  - split; [reflexivity |]. split; [split; [discriminate | intros [? ?]; discriminate] |].
    split; [intros r Hr _; exact Hr | discriminate].
Qed.

Lemma deleteUser_effect_witness :
  (PostgresExt.deleteUser sole_super_admin (Postgres.PText "1")).2 = true
  /\ (Postgres.count_super_admins (PostgresExt.deleteUser sole_super_admin (Postgres.PText "1")).1
      + 1)%nat = 1%nat.
Proof.
  destruct (deleteUser_effect sole_super_admin (Postgres.PText "1")) as (_ & Hok & _ & Hcount).
  split; [apply Hok; eexists; reflexivity |].
  exact (proj2 (Hcount alice (Postgres.wf_ids _ (reachable_wf _ sole_super_admin_reachable))
                  eq_refl)).
Defined.

(** ** The role handler, case by case *)

(** [PUT /users/:userId/role] answers with the updated identity, which
    then has the role that was asked for and the id the path denotes, or
    with 400 or 404; in the second case the directory is as it was. *)
Theorem put_role_effect (db : Postgres.Db) (userId : string) (role : option string) (now : Z) :
  match (Routes.put_role db userId role now).2 with
  | Routes.UserBody (Some u) =>
      role = Some (Postgres.role_to_string (Postgres.role u))
      /\ Postgres.int4in userId = Some (Postgres.id u)
  | Routes.Failure st _ _ =>
      (st = 400 \/ st = 404) /\ (Routes.put_role db userId role now).1 = db
  | _ => False
  end.
Proof.
  unfold Routes.put_role.
  destruct role as [rs |]; cbn [mbind option_bind]; [| split; [left |]; reflexivity].
  destruct (Postgres.role_of_string rs) as [rl |] eqn:Hrl; [| split; [left |]; reflexivity].
  assert (Hrs : rs = Postgres.role_to_string rl).
  { unfold Postgres.role_of_string in Hrl.
    destruct (String.eqb_spec rs "user") as [-> | _]; [injection Hrl as <-; reflexivity |].
    destruct (String.eqb_spec rs "admin") as [-> | _]; [injection Hrl as <-; reflexivity |].
    destruct (String.eqb_spec rs "super_admin") as [-> | _]; [injection Hrl as <-; reflexivity |].
    discriminate. }
  destruct (negb _ && _)%bool; [split; [left |]; reflexivity |].
  pose proof (updateUserRole_cases db (Postgres.PText userId) rl now) as Hupd.
  destruct (Postgres.updateUserRole db (Postgres.PText userId) rl now) as [db' ok].
  cbn [fst snd] in *. destruct ok.
  - destruct (proj1 Hupd eq_refl) as (u & Hu & Hrole). rewrite Hu.
    split; [rewrite Hrole; f_equal; exact Hrs |].
    unfold Postgres.getUserById in Hu. cbn [Postgres.as_int4] in Hu.
    destruct (Postgres.int4in userId) as [n |]; [| discriminate]. f_equal.
    assert (Hin : u ∈ filter (fun r => Postgres.id r = n) (Postgres.rows db')).
    { destruct (filter _ _); [discriminate | injection Hu as ->; left]. }
    apply list_elem_of_filter in Hin as [Hid _]. symmetry. exact Hid.
  - split; [right; reflexivity | exact (proj2 Hupd eq_refl)].
Qed.

(** ** The guarded routes *)

Module RoutesExt.

(** A route's handlers run in order: one that answers ends the chain, one
    that calls [next] passes the request on to the following one. *)
Fixpoint through (guards : list (Middleware.Request -> Middleware.Outcome))
    (req : Middleware.Request) : Middleware.Reply + Middleware.Request :=
  match guards with
  | [] => inr req
  | g :: rest =>
      match Middleware.reply (g req) with
      | Some r => inl r
      | None => through rest (Middleware.request (g req))
      end
  end.

(** What the handlers behind the guards answer. *)
Inductive Answer :=
| Role (r : Routes.Response)
| Users (users : list Postgres.Row)
| Message (message : string)
| NotFound
| Me (id email name role createdAt updatedAt : Postgres.Value).

(** [POST /users/:userId/deactivate] and [.../reactivate], the handler. *)
Definition set_active_handler (b : bool) (db : Postgres.Db) (userId : string) (now : Z)
    : Postgres.Db * Answer :=
  let '(db', success) := Postgres.set_is_active b db (Postgres.PText userId) now in
  if success
  then (db', Message (if b then "User reactivated successfully"
                      else "User deactivated successfully"))
  else (db', NotFound).

(** [GET /me], the handler: the projection of [req.user]. *)
Definition me_handler (req : Middleware.Request) : option Answer :=
  (fun u => Me (Postgres.prop u "id") (Postgres.prop u "email") (Postgres.prop u "name")
               (Postgres.prop u "role") (Postgres.prop u "createdAt")
               (Postgres.prop u "updatedAt")) <$> Middleware.user req.

Section WithServices.

Variable L : Jwt.Lib.
Variable jwtService : JWTService.t.

Definition authenticate (db : Postgres.Db) (now : Z) (req : Middleware.Request)
    : Middleware.Outcome :=
  Middleware.authenticate L jwtService db req now.

(** A route behind guards: the directory it leaves, and the answer of the
    guard that stopped the request or of the handler. *)
Definition route (guards : list (Middleware.Request -> Middleware.Outcome))
    (handler : Middleware.Request -> Postgres.Db * option Answer)
    (db : Postgres.Db) (req : Middleware.Request)
    : Postgres.Db * (Middleware.Reply + option Answer) :=
  match through guards req with
  | inl r => (db, inl r)
  | inr req' => let '(db', a) := handler req' in (db', inr a)
  end.

(** [GET /me] *)
Definition get_me (db : Postgres.Db) (req : Middleware.Request) (now : Z) :=
  route [authenticate db now] (fun req' => (db, me_handler req')) db req.

(** [GET /users] *)
Definition get_users (db : Postgres.Db) (req : Middleware.Request) (now : Z) :=
  route [authenticate db now; Middleware.requireSuperAdmin]
    (fun _ => (db, Some (Users (Postgres.getAllUsers db)))) db req.

(** [PUT /users/:userId/role] *)
Definition put_user_role (db : Postgres.Db) (req : Middleware.Request)
    (userId : string) (role : option string) (now : Z) :=
  route [authenticate db now; Middleware.requireSuperAdmin]
    (fun _ => let '(db', r) := Routes.put_role db userId role now in (db', Some (Role r)))
    db req.

(** [POST /users/:userId/deactivate] *)
Definition post_deactivate (db : Postgres.Db) (req : Middleware.Request)
    (userId : string) (now : Z) :=
  route [authenticate db now; Middleware.requireAdmin]
    (fun _ => let '(db', a) := set_active_handler false db userId now in (db', Some a))
    db req.

(** [POST /users/:userId/reactivate] *)
Definition post_reactivate (db : Postgres.Db) (req : Middleware.Request)
    (userId : string) (now : Z) :=
  route [authenticate db now; Middleware.requireAdmin]
    (fun _ => let '(db', a) := set_active_handler true db userId now in (db', Some a))
    db req.

End WithServices.

(** A request is stopped when a guard answered it and the directory is as
    it was; the answer is 401 or 403, or 500 for a token whose payload is
    no JSON. *)
Definition stopped (L : Jwt.Lib) (db : Postgres.Db) (req : Middleware.Request)
    (result : Postgres.Db * (Middleware.Reply + option Answer)) : Prop :=
  exists r, result = (db, inl r)
            /\ (Middleware.status r = 401 \/ Middleware.status r = 403
                \/ (Middleware.status r = 500
                    /\ exists token message,
                         Middleware.extractToken req = Some token
                         /\ Jwt.decode L token = Jwt.Unparsable message)).

End RoutesExt.

(** A route whose first guard is [authenticate] never reaches its
    handler. *)
Lemma route_behind_authenticate (L : Jwt.Lib) (s : JWTService.t) (db : Postgres.Db)
    (now : Z) (rest : list (Middleware.Request -> Middleware.Outcome))
    (handler : Middleware.Request -> Postgres.Db * option RoutesExt.Answer)
    (req : Middleware.Request) :
  RoutesExt.stopped L db req
    (RoutesExt.route (RoutesExt.authenticate L s db now :: rest) handler db req).
Proof.
  unfold RoutesExt.stopped, RoutesExt.route, RoutesExt.authenticate. cbn [RoutesExt.through].
  pose proof (authenticate_500 L s db req now) as H500.
  destruct (authenticate_stops L s db req now) as (st & err & Heq & Hst).
  rewrite Heq in *. cbn [Middleware.respond Middleware.reply] in *.
  eexists. split; [reflexivity |]. cbn [Middleware.status].
  destruct Hst as [-> | [-> | ->]]; [left; reflexivity | right; left; reflexivity |].
  right. right. split; [reflexivity |]. exact (H500 _ eq_refl eq_refl).
Qed.



(** As the sources stand, the five routes behind [authenticate] answer
    every request with 401 or 403, or with 500 when the payload of the
    token is no JSON: no identity is read through [/me], no list through
    [/users], and no role or active flag is changed through the user
    management routes. *)
Theorem guarded_routes_stopped (L : Jwt.Lib) (s : JWTService.t) (db : Postgres.Db)
    (req : Middleware.Request) (userId : string) (role : option string) (now : Z) :
  RoutesExt.stopped L db req (RoutesExt.get_me L s db req now)
  /\ RoutesExt.stopped L db req (RoutesExt.get_users L s db req now)
  /\ RoutesExt.stopped L db req (RoutesExt.put_user_role L s db req userId role now)
  /\ RoutesExt.stopped L db req (RoutesExt.post_deactivate L s db req userId now)
  /\ RoutesExt.stopped L db req (RoutesExt.post_reactivate L s db req userId now).
Proof. repeat split; apply route_behind_authenticate. Qed.

(** ** Login, when the email is allowed *)

(** A login with an allowed email and a name that the columns take as
    they are, while the sequence has a value left, is answered with a
    session: the identity of the email in the directory after the call,
    and a token that [verifyToken] turns at once into the claims of that
    identity, provided the configured duration is at least a second.
    The active flag is not looked at. *)
Theorem sso_login_session (ac : option OAuth.AccessControl) (L : Jwt.Lib) (s : JWTService.t)
    (db : Postgres.Db) (body : Routes.SsoBody) (now : Z) (mail nm : string) (d : Z) :
  Routes.email body = Some mail -> Routes.name body = Some nm ->
  mail <> EmptyString -> nm <> EmptyString ->
  OAuth.checkAccessControl ac mail = true ->
  fits 255 mail -> fits 255 nm ->
  fits 50 (provider_or_default (Some (default "microsoft" (Routes.provider body)))) ->
  Postgres.in_int4 (Postgres.next_id db) = true ->
  Jwt.lawful L ->
  JWTService.configured_seconds L (JWTService.expiresIn s) = Some d -> 0 < d ->
  exists db' token view u,
    Routes.sso_login ac L s db body now = (db', Routes.Session token view)
    /\ Postgres.getUserByEmail db' mail = Some u
    /\ Postgres.name u = nm
    /\ Routes.view_id view = Postgres.id u
    /\ Routes.view_email view = mail
    /\ Routes.view_role view = Postgres.role_to_string (Postgres.role u)
    /\ JWTService.verifyToken L s token now =
         JWTService.Ok {| Jwt.userId := Postgres.id u; Jwt.email := mail;
                          Jwt.role := Postgres.role_to_string (Postgres.role u);
                          Jwt.iat := Some (now / 1000);
                          Jwt.exp := Some (now / 1000 + d) |}.
Proof.
  intros Hmail Hname Hm Hn Hallowed Hfm Hfn Hfp Hseq Hlaw Hd Hpos.
  unfold Routes.sso_login. rewrite Hmail, Hname.
  destruct mail as [| c0 mail']; [contradiction |].
  destruct nm as [| c1 nm']; [contradiction |].
  cbn [Js.truthy negb orb]. rewrite Hallowed. cbn [negb].
  set (prov := Some (default "microsoft" (Routes.provider body))) in *.
  destruct (upsert_fits db (String c0 mail') (String c1 nm') prov now Hfm Hfn Hfp Hseq)
    as (u & Hres & Hlook & Hemail & Hnm & _).
  destruct (Postgres.createOrUpdateUser db (String c0 mail') (String c1 nm') prov now)
    as [db' created].
  cbn [fst snd] in *. subst created.
  unfold JWTService.generateToken, Jwt.sign. rewrite timespan_configured, Hd. cbn [fmap option_fmap option_map].
  do 4 eexists. split; [reflexivity |].
  split; [exact Hlook |]. split; [exact Hnm |].
  cbn [Routes.view_id Routes.view_email Routes.view_role].
  split; [reflexivity |]. split; [exact Hemail |]. split; [reflexivity |].
  rewrite verifyToken_cases, Hlaw. cbn [Jwt.jws_signature Jwt.jws_payload Jwt.exp].
  rewrite String.eqb_refl, Hemail.
  destruct (Z.leb_spec (now / 1000 + d) (now / 1000)); [lia | reflexivity].
Qed.

Lemma sso_login_session_witness :
  exists db' token view u,
    Routes.sso_login acme Reference.lib Reference.service alice_deactivated
      {| Routes.email := Some "alice@acme.com"; Routes.name := Some "Alice";
         Routes.provider := None; Routes.avatar := None |} 9000
    = (db', Routes.Session token view)
    /\ Postgres.getUserByEmail db' "alice@acme.com" = Some u
    /\ Routes.view_role view = Postgres.role_to_string (Postgres.role u).
Proof.
  destruct (sso_login_session acme Reference.lib Reference.service alice_deactivated
              {| Routes.email := Some "alice@acme.com"; Routes.name := Some "Alice";
                 Routes.provider := None; Routes.avatar := None |} 9000
              "alice@acme.com" "Alice" 604800 eq_refl eq_refl ltac:(discriminate)
              ltac:(discriminate) eq_refl
              ltac:(split; [reflexivity | simpl; lia])
              ltac:(split; [reflexivity | simpl; lia])
              ltac:(split; [reflexivity | simpl; lia])
              eq_refl reference_lawful eq_refl eq_refl)
    as (db' & token & view & u & Hs & Hl & _ & _ & _ & Hr & _).
  exists db', token, view, u. split; [exact Hs |]. split; [exact Hl | exact Hr].
Defined.

(** A login that the directory refuses is answered 500, whatever the
    access control said, and no row is written. *)
Lemma sso_login_refused (ac : option OAuth.AccessControl) (L : Jwt.Lib) (s : JWTService.t)
    (db : Postgres.Db) (body : Routes.SsoBody) (now : Z) (mail nm : string) :
  Routes.email body = Some mail -> Routes.name body = Some nm ->
  mail <> EmptyString -> nm <> EmptyString ->
  OAuth.checkAccessControl ac mail = true ->
  (Postgres.createOrUpdateUser db mail nm
     (Some (default "microsoft" (Routes.provider body))) now).2 = None ->
  (Routes.sso_login ac L s db body now).2
  = Routes.Failure 500 "Failed to create or update user" None
  /\ Postgres.rows (Routes.sso_login ac L s db body now).1 = Postgres.rows db.
Proof.
  intros Hmail Hname Hm Hn Hallowed Hnone.
  pose proof (upsert_refused_rows _ _ _ _ _ Hnone) as Hrows.
  unfold Routes.sso_login. rewrite Hmail, Hname.
  destruct mail as [| c0 mail']; [contradiction |].
  destruct nm as [| c1 nm']; [contradiction |].
  cbn [Js.truthy negb orb]. rewrite Hallowed. cbn [negb].
  destruct (Postgres.createOrUpdateUser _ _ _ _ _) as [db' created].
  cbn [fst snd] in *. subst created. split; [reflexivity | exact Hrows].
Qed.

(** An allowed email of 259 characters: 500, and the directory is as it
    was. *)
Example sso_login_long_email :
  OAuth.checkAccessControl acme long_email = true
  /\ Routes.sso_login acme Reference.lib Reference.service sole_super_admin
       {| Routes.email := Some long_email; Routes.name := Some "Bob";
          Routes.provider := None; Routes.avatar := None |} 9000
     = (sole_super_admin, Routes.Failure 500 "Failed to create or update user" None).
Proof. split; vm_compute; reflexivity. Qed.

(** ** The rate limiter's map *)

Module MiddlewareExt.

(** Requests of any clients, one after the other, through one limiter. *)
Fixpoint run (maxRequests windowMs : Z) (requests : gmap string Middleware.Entry)
    (steps : list (Middleware.Request * Z)) : gmap string Middleware.Entry * list Middleware.Outcome :=
  match steps with
  | [] => (requests, [])
  | (req, now) :: rest =>
      let '(requests', o) := Middleware.rateLimit maxRequests windowMs requests req now in
      let '(requests'', os) := run maxRequests windowMs requests' rest in
      (requests'', o :: os)
  end.

(** Every counter is at least 1 and at most the limit (or 1, for a limit
    below 1). *)
Definition bounded (maxRequests : Z) (requests : gmap string Middleware.Entry) : Prop :=
  map_Forall (fun _ e => 1 <= Middleware.count e <= Z.max 1 maxRequests) requests.

End MiddlewareExt.

(** The limiter leaves its map as it is, or writes its client's entry. *)
Lemma rateLimit_map (maxRequests windowMs : Z) (requests : gmap string Middleware.Entry)
    (req : Middleware.Request) (now : Z) :
  ((Middleware.rateLimit maxRequests windowMs requests req now).1 = requests
   /\ is_Some (requests !! Middleware.identifier req))
  \/ exists x, (Middleware.rateLimit maxRequests windowMs requests req now).1
               = <[Middleware.identifier req := x]> requests.
Proof.
  unfold Middleware.rateLimit.
  destruct (requests !! Middleware.identifier req) as [e |] eqn:He; cbn [fst].
  - destruct (now >? Middleware.resetTime e); cbn [fst]; [right; eauto |].
    destruct (Middleware.count e >=? maxRequests); cbn [fst]; [left; eauto | right; eauto].
  - right. eauto.
Qed.

(** A request touches the counter of its own client only, and the
    limiter never forgets a client: every key of the map stays. *)
Theorem rateLimit_keyed (maxRequests windowMs : Z) (requests : gmap string Middleware.Entry)
    (req : Middleware.Request) (now : Z) (k : string) :
  (k <> Middleware.identifier req ->
   (Middleware.rateLimit maxRequests windowMs requests req now).1 !! k = requests !! k)
  /\ (is_Some (requests !! k) ->
      is_Some ((Middleware.rateLimit maxRequests windowMs requests req now).1 !! k))
  /\ is_Some ((Middleware.rateLimit maxRequests windowMs requests req now).1
                !! Middleware.identifier req).
Proof.
  destruct (rateLimit_map maxRequests windowMs requests req now) as [[-> Hs] | [x ->]].
  - split; [reflexivity |]. split; [tauto | exact Hs].
  - split; [intros Hk; apply lookup_insert_ne; congruence |].
    split; [| rewrite lookup_insert_eq; eauto].
    intros Hs. destruct (decide (k = Middleware.identifier req)) as [-> | Hk].
    + rewrite lookup_insert_eq. eauto.
    + rewrite lookup_insert_ne by congruence. exact Hs.
Qed.

Lemma rateLimit_keyed_witness :
  (Middleware.rateLimit 2 60000 {["10.0.0.2" := {| Middleware.count := 2;
                                                    Middleware.resetTime := 61000 |}]}
     client_request 3000).1 !! "10.0.0.2"
  = Some {| Middleware.count := 2; Middleware.resetTime := 61000 |}.
Proof.
  refine (eq_trans (proj1 (rateLimit_keyed 2 60000 _ client_request 3000 "10.0.0.2") _) _);
    [discriminate | reflexivity].
Defined.

Lemma rateLimit_bounded (maxRequests windowMs : Z) (requests : gmap string Middleware.Entry)
    (req : Middleware.Request) (now : Z) :
  MiddlewareExt.bounded maxRequests requests ->
  MiddlewareExt.bounded maxRequests
    (Middleware.rateLimit maxRequests windowMs requests req now).1.
Proof.
  intros Hb. unfold Middleware.rateLimit.
  destruct (requests !! Middleware.identifier req) as [e |] eqn:He; cbn [fst].
  - destruct (now >? Middleware.resetTime e); cbn [fst].
    + apply map_Forall_insert_2; [cbn; lia | exact Hb].
    + destruct (Z.geb_spec (Middleware.count e) maxRequests); cbn [fst]; [exact Hb |].
      apply map_Forall_insert_2; [| exact Hb].
      pose proof (Hb _ _ He) as He'. cbn in *. lia.
  - apply map_Forall_insert_2; [cbn; lia | exact Hb].
Qed.

(** Whatever requests arrive, in whatever order and at whatever times,
    no counter of the limiter leaves the range from 1 to the limit: in one
    window a client is handed on at most [maxRequests] times (once, for a
    limit below 1). *)
Theorem rateLimit_counters_bounded (maxRequests windowMs : Z)
    (steps : list (Middleware.Request * Z)) :
  MiddlewareExt.bounded maxRequests (MiddlewareExt.run maxRequests windowMs ∅ steps).1.
Proof.
  assert (Hgen : forall requests, MiddlewareExt.bounded maxRequests requests ->
            MiddlewareExt.bounded maxRequests
              (MiddlewareExt.run maxRequests windowMs requests steps).1).
  { induction steps as [| [req now] rest IH]; intros requests Hb; [exact Hb |].
    cbn [MiddlewareExt.run].
    pose proof (rateLimit_bounded maxRequests windowMs requests req now Hb) as Hb'.
    destruct (Middleware.rateLimit maxRequests windowMs requests req now) as [requests' o].
    specialize (IH requests' Hb').
    destruct (MiddlewareExt.run maxRequests windowMs requests' rest). exact IH. }
  apply Hgen. apply map_Forall_empty.
Qed.

(** A request is refused only over the limit: when it is answered 429,
    its client's counter has reached [maxRequests] and the deadline of the
    window has not passed; the map is left as it was. *)
Theorem rateLimit_refusal (maxRequests windowMs : Z) (requests : gmap string Middleware.Entry)
    (req : Middleware.Request) (now : Z) (r : Middleware.Reply) :
  Middleware.reply (Middleware.rateLimit maxRequests windowMs requests req now).2 = Some r ->
  exists e,
    requests !! Middleware.identifier req = Some e
    /\ maxRequests <= Middleware.count e
    /\ now <= Middleware.resetTime e
    /\ Middleware.status r = 429
    /\ (Middleware.rateLimit maxRequests windowMs requests req now).1 = requests
    /\ Middleware.next_calls (Middleware.rateLimit maxRequests windowMs requests req now).2
       = 0%nat.
Proof.
  unfold Middleware.rateLimit.
  destruct (requests !! Middleware.identifier req) as [e |]; cbn [snd fst]; [| discriminate].
  rewrite Z.gtb_ltb, Z.geb_leb.
  destruct (Z.ltb_spec (Middleware.resetTime e) now); cbn [snd fst]; [discriminate |].
  destruct (Z.leb_spec maxRequests (Middleware.count e)); cbn [snd fst]; [| discriminate].
  cbn. intros [= <-]. exists e. repeat split; assumption.
Qed.

Lemma rateLimit_refusal_witness :
  exists e,
    (Middleware.serve 2 60000 ∅ client_request [1000; 2000]).1
      !! Middleware.identifier client_request = Some e
    /\ 2 <= Middleware.count e.
Proof.
  assert (Hreply :
    Middleware.reply
      (Middleware.rateLimit 2 60000 (Middleware.serve 2 60000 ∅ client_request [1000; 2000]).1
         client_request 3000).2
    = Some {| Middleware.status := 429; Middleware.error := "Too many requests";
              Middleware.retryAfter := Some 58 |}) by (vm_compute; reflexivity).
  destruct (rateLimit_refusal 2 60000 _ client_request 3000 _ Hreply) as (e & He & Hc & _).
  exists e. split; [exact He | exact Hc].
Defined.

(** ** Access control, further *)

Lemma toLowerCase_append (a b : string) :
  Js.toLowerCase (String.append a b) = String.append (Js.toLowerCase a) (Js.toLowerCase b).
Proof. induction a as [| c a IH]; simpl; [reflexivity | rewrite IH; reflexivity]. Qed.

Lemma lower_ascii_idempotent (c : ascii) : Js.lower_ascii (Js.lower_ascii c) = Js.lower_ascii c.
Proof. destruct c as [[] [] [] [] [] [] [] []]; reflexivity. Qed.

Lemma toLowerCase_idempotent (s : string) : Js.toLowerCase (Js.toLowerCase s) = Js.toLowerCase s.
Proof.
  induction s as [| c s IH]; simpl; [reflexivity |].
  rewrite lower_ascii_idempotent, IH. reflexivity.
Qed.

(** Only what stands between the first and the second [@] is taken for
    the domain: an address whose second segment is an allowed domain is
    allowed, whatever follows a second [@]. *)
Theorem checkAccessControl_second_at (ac : option OAuth.AccessControl) (a d rest : string) :
  Js.occurrences "@" a = 0%nat ->
  Js.occurrences "@" d = 0%nat ->
  In (Js.toLowerCase d) (OAuth.domains_of ac) ->
  OAuth.checkAccessControl ac
    (String.append a (String "@" (String.append d (String "@" rest)))) = true.
Proof.
  intros Ha Hd Hin. apply checkAccessControl_general. right; right.
  exists (Js.toLowerCase d). split; [| exact Hin].
  rewrite toLowerCase_append. cbn [Js.toLowerCase].
  rewrite toLowerCase_append. cbn [Js.toLowerCase].
  change (Js.lower_ascii "@") with "@"%char.
  rewrite split_append by (rewrite occurrences_toLowerCase; exact Ha).
  rewrite split_append by (rewrite occurrences_toLowerCase; exact Hd).
  reflexivity.
Qed.

Lemma checkAccessControl_second_at_witness :
  OAuth.checkAccessControl acme "x@acme.com@other.com" = true.
Proof.
  apply (checkAccessControl_second_at acme "x" "acme.com" "other.com");
    [reflexivity | reflexivity | left; reflexivity].
Defined.

(** The case of the email never matters: the answer for an email is the
    answer for its lower-case form. *)
Theorem checkAccessControl_input_case (ac : option OAuth.AccessControl) (email : string) :
  OAuth.checkAccessControl ac (Js.toLowerCase email) = OAuth.checkAccessControl ac email.
Proof.
  unfold OAuth.checkAccessControl. rewrite toLowerCase_idempotent. reflexivity.
Qed.

(** ** The constructor of the token service *)

(** [new JWTService(secret, expiresIn)] throws exactly for a secret of
    fewer than 32 characters; otherwise the service keeps the secret and
    the given expiry, or ['7d'] when none is given. *)
Theorem new_secret_length (secret : string) (e : option Jwt.ExpiresIn) :
  (JWTService.new secret e = None <-> (String.length secret < 32)%nat)
  /\ (forall s, JWTService.new secret e = Some s ->
        JWTService.secret s = secret
        /\ JWTService.expiresIn s = default (Jwt.Span "7d") e).
Proof.
  unfold JWTService.new.
  destruct (Nat.ltb_spec (String.length secret) 32) as [Hlt | Hge].
  - rewrite orb_true_r. split; [split; [intros _; exact Hlt | reflexivity] | discriminate].
  - rewrite orb_false_r.
    destruct secret as [| c secret']; [simpl in Hge; lia |].
    cbn [Js.truthy negb]. split.
    + split; [discriminate | intros Hlt; lia].
    + intros s [= <-]. split; reflexivity.
Qed.

(** ** State and PKCE values ([OAuthService])

    The random bytes are an input: the array after [getRandomValues] or
    [randomFillSync].  A buffer of bytes is a string of one character per
    byte, which is what [String.fromCharCode(...buffer)] makes of it. *)

Module Pkce.

Definition alphabet : list ascii :=
  list_ascii_of_string "ABCDEFGHIJKLMNOPQRSTUVWXYZabcdefghijklmnopqrstuvwxyz0123456789+/".

(** The character of a six-bit value. *)
Definition b64 (n : N) : ascii := nth (N.to_nat n) alphabet "="%char.

(** [btoa]: base64, three bytes to four characters, padded with [=]. *)
Fixpoint btoa (s : string) : string :=
  match s with
  | EmptyString => EmptyString
  | String a EmptyString =>
      let x := N_of_ascii a in
      String (b64 (x / 4)) (String (b64 (x mod 4 * 16)) "==")
  | String a (String b EmptyString) =>
      let x := N_of_ascii a in
      let y := N_of_ascii b in
      String (b64 (x / 4))
        (String (b64 (x mod 4 * 16 + y / 16))
           (String (b64 (y mod 16 * 4)) "="))
  | String a (String b (String c rest)) =>
      let x := N_of_ascii a in
      let y := N_of_ascii b in
      let z := N_of_ascii c in
      String (b64 (x / 4))
        (String (b64 (x mod 4 * 16 + y / 16))
           (String (b64 (y mod 16 * 4 + z / 64))
              (String (b64 (z mod 64)) (btoa rest))))
  end%N.

(** [s.replace(/c/g, d)] for single characters *)
Fixpoint replace_all (c d : ascii) (s : string) : string :=
  match s with
  | EmptyString => EmptyString
  | String e s' => String (if Ascii.eqb e c then d else e) (replace_all c d s')
  end.

(** [s.replace(/c/g, '')] *)
Fixpoint remove_all (c : ascii) (s : string) : string :=
  match s with
  | EmptyString => EmptyString
  | String e s' => if Ascii.eqb e c then remove_all c s' else String e (remove_all c s')
  end.

Definition base64UrlEncode (buffer : string) : string :=
  remove_all "=" (replace_all "/" "_" (replace_all "+" "-" (btoa buffer))).

Definition hex_digit (n : N) : ascii :=
  nth (N.to_nat n) (list_ascii_of_string "0123456789abcdef") "0"%char.

(** [byte.toString(16).padStart(2, '0')] *)
Definition hex_byte (a : ascii) : string :=
  let x := N_of_ascii a in
  String (hex_digit (x / 16)) (String (hex_digit (x mod 16)) EmptyString)%N.

(** [generateState()], given the 32 random bytes. *)
Fixpoint generateState (random : string) : string :=
  match random with
  | EmptyString => EmptyString
  | String a rest => String.append (hex_byte a) (generateState rest)
  end.

(** [generateCodeVerifier()], given the 32 random bytes. *)
Definition generateCodeVerifier (random : string) : string := base64UrlEncode random.

(** [generateCodeChallenge(verifier)], over the digest function. *)
Definition generateCodeChallenge (sha256 : string -> string) (verifier : string) : string :=
  base64UrlEncode (sha256 verifier).

(** The characters a URL takes unescaped: letters, digits, [-] and [_]. *)
Definition url_safe (c : ascii) : bool :=
  let n := nat_of_ascii c in
  (((65 <=? n) && (n <=? 90)) || ((97 <=? n) && (n <=? 122)) || ((48 <=? n) && (n <=? 57))
   || (n =? 45) || (n =? 95))%nat%bool.

Definition is_hex (c : ascii) : bool :=
  let n := nat_of_ascii c in
  (((48 <=? n) && (n <=? 57)) || ((97 <=? n) && (n <=? 102)))%nat%bool.

Fixpoint all_chars (P : ascii -> bool) (s : string) : bool :=
  match s with
  | EmptyString => true
  | String c s' => (P c && all_chars P s')%bool
  end.

Definition bytes (l : list N) : string :=
  string_of_list_ascii (map ascii_of_N l).

End Pkce.

(** The two replacements, on one character. *)
Definition url_char (c : ascii) : ascii :=
  let c1 := if Ascii.eqb c "+" then "-"%char else c in
  if Ascii.eqb c1 "/" then "_"%char else c1.

(** What [base64UrlEncode] does after [btoa]. *)
Definition finish (s : string) : string :=
  Pkce.remove_all "=" (Pkce.replace_all "/" "_" (Pkce.replace_all "+" "-" s)).

Lemma finish_cons (c : ascii) (s : string) :
  finish (String c s)
  = if Ascii.eqb (url_char c) "=" then finish s else String (url_char c) (finish s).
Proof. reflexivity. Qed.

(** Every character of the alphabet becomes a URL-safe one, none [=]. *)
Lemma b64_url_char (n : N) :
  (n < 64)%N ->
  Pkce.url_safe (url_char (Pkce.b64 n)) = true
  /\ Ascii.eqb (url_char (Pkce.b64 n)) "=" = false.
Proof.
  intros Hn. unfold Pkce.b64.
  assert (Hall : Forall (fun c => Pkce.url_safe (url_char c) = true
                                  /\ Ascii.eqb (url_char c) "=" = false) Pkce.alphabet)
    by (repeat constructor).
  rewrite Forall_forall in Hall. apply Hall. apply list_elem_of_In, nth_In.
  change (length Pkce.alphabet) with 64%nat. lia.
Qed.

Lemma sextets (a b c : ascii) :
  let x := N_of_ascii a in
  let y := N_of_ascii b in
  let z := N_of_ascii c in
  (x / 4 < 64 /\ x mod 4 * 16 < 64 /\ x mod 4 * 16 + y / 16 < 64
   /\ y mod 16 * 4 < 64 /\ y mod 16 * 4 + z / 64 < 64 /\ z mod 64 < 64)%N.
Proof.
  intros x y z.
  pose proof (N_ascii_bounded a) as Hx. pose proof (N_ascii_bounded b) as Hy.
  pose proof (N_ascii_bounded c) as Hz. fold x in Hx. fold y in Hy. fold z in Hz.
  assert (x / 4 < 64)%N by (apply N.Div0.div_lt_upper_bound; lia).
  assert (y / 16 < 16)%N by (apply N.Div0.div_lt_upper_bound; lia).
  assert (z / 64 < 4)%N by (apply N.Div0.div_lt_upper_bound; lia).
  assert (x mod 4 < 4)%N by (apply N.mod_upper_bound; lia).
  assert (y mod 16 < 16)%N by (apply N.mod_upper_bound; lia).
  assert (z mod 64 < 64)%N by (apply N.mod_upper_bound; lia).
  repeat split; lia.
Qed.

(** A property of [base64UrlEncode] that holds for the buffers of up to
    two bytes, and for three bytes more whenever it holds for a buffer,
    holds for every buffer. *)
Lemma by_triples (P : string -> Prop) :
  P EmptyString ->
  (forall a, P (String a EmptyString)) ->
  (forall a b, P (String a (String b EmptyString))) ->
  (forall a b c s, P s -> P (String a (String b (String c s)))) ->
  forall s, P s.
Proof.
  intros H0 H1 H2 H3 s.
  assert (Hall : P s /\ (forall a, P (String a s)) /\ (forall a b, P (String a (String b s)))).
  { induction s as [| c s (IH0 & IH1 & IH2)].
    - split; [exact H0 |]. split; [exact H1 | exact H2].
    - split; [apply IH1 |]. split; [intros a; apply IH2 |].
      intros a b. apply H3, IH0. }
  exact (proj1 Hall).
Qed.

Lemma length_three_more (n : nat) : ((4 * (3 + n) + 2) / 3 = 4 + (4 * n + 2) / 3)%nat.
Proof.
  replace (4 * (3 + n) + 2)%nat with (4 * n + 2 + 4 * 3)%nat by lia.
  rewrite Nat.div_add by lia. lia.
Qed.

(** [base64UrlEncode] gives URL-safe characters only (no [+], [/] or
    [=]), four for every three bytes, rounded up; for the 32 bytes of a
    code verifier or of a SHA-256 digest, 43 characters. *)
Theorem base64UrlEncode_shape (buffer : string) :
  Pkce.all_chars Pkce.url_safe (Pkce.base64UrlEncode buffer) = true
  /\ String.length (Pkce.base64UrlEncode buffer) = ((4 * String.length buffer + 2) / 3)%nat
  /\ (String.length buffer = 32%nat -> String.length (Pkce.base64UrlEncode buffer) = 43%nat).
Proof.
  assert (Hshape : Pkce.all_chars Pkce.url_safe (Pkce.base64UrlEncode buffer) = true
                   /\ String.length (Pkce.base64UrlEncode buffer)
                      = ((4 * String.length buffer + 2) / 3)%nat).
  { unfold Pkce.base64UrlEncode. fold (finish (Pkce.btoa buffer)).
    induction buffer as [| a | a b | a b c s [IHsafe IHlen]] using by_triples.
    - split; reflexivity.
    - destruct (sextets a a a) as (H1 & H2 & _). cbn zeta in H1, H2.
      cbn [Pkce.btoa]. rewrite !finish_cons.
      destruct (b64_url_char _ H1) as [S1 E1]. destruct (b64_url_char _ H2) as [S2 E2].
      rewrite E1, E2. cbn [Pkce.all_chars String.length]. rewrite S1, S2. split; reflexivity.
    - destruct (sextets a b b) as (H1 & _ & H2 & H3 & _). cbn zeta in H1, H2, H3.
      cbn [Pkce.btoa]. rewrite !finish_cons.
      destruct (b64_url_char _ H1) as [S1 E1]. destruct (b64_url_char _ H2) as [S2 E2].
      destruct (b64_url_char _ H3) as [S3 E3].
      rewrite E1, E2, E3. cbn [Pkce.all_chars String.length]. rewrite S1, S2, S3.
      split; reflexivity.
    - destruct (sextets a b c) as (H1 & _ & H2 & _ & H3 & H4). cbn zeta in H1, H2, H3, H4.
      cbn [Pkce.btoa]. rewrite !finish_cons.
      destruct (b64_url_char _ H1) as [S1 E1]. destruct (b64_url_char _ H2) as [S2 E2].
      destruct (b64_url_char _ H3) as [S3 E3]. destruct (b64_url_char _ H4) as [S4 E4].
      rewrite E1, E2, E3, E4. cbn [Pkce.all_chars String.length]. rewrite S1, S2, S3, S4, IHsafe.
      split; [reflexivity |]. rewrite IHlen.
      change (S (S (S (String.length s)))) with (3 + String.length s)%nat.
      rewrite length_three_more. reflexivity. }
  destruct Hshape as [Hsafe Hlen]. split; [exact Hsafe |]. split; [exact Hlen |].
  intros H32. rewrite Hlen, H32. reflexivity.
Qed.

(** The octets of the code verifier in RFC 7636, appendix B. *)
Definition rfc7636_octets : string :=
  Pkce.bytes [116; 24; 223; 180; 151; 153; 224; 37; 79; 250; 96; 125; 216; 173; 187; 186;
              22; 212; 37; 77; 105; 214; 191; 240; 91; 88; 5; 88; 83; 132; 141; 121]%N.

Example generateCodeVerifier_rfc7636 :
  Pkce.generateCodeVerifier rfc7636_octets = "dBjftJeZ4CVP-mB92K27uhbUJU1p1r_wW1gFWFOEjXk".
Proof. vm_compute. reflexivity. Qed.

Lemma base64UrlEncode_shape_witness :
  String.length (Pkce.base64UrlEncode rfc7636_octets) = 43%nat.
Proof. exact (proj2 (proj2 (base64UrlEncode_shape rfc7636_octets)) eq_refl). Defined.

(** Reading a state back: two hexadecimal digits to a byte. *)
Definition unhex_digit (c : ascii) : option N :=
  let n := N_of_ascii c in
  if ((48 <=? n) && (n <=? 57))%N%bool then Some (n - 48)%N
  else if ((97 <=? n) && (n <=? 102))%N%bool then Some (n - 87)%N
  else None.

Fixpoint unhex (s : string) : option string :=
  match s with
  | EmptyString => Some EmptyString
  | String h (String l rest) =>
      hi ← unhex_digit h; lo ← unhex_digit l; r ← unhex rest;
      Some (String (ascii_of_N (hi * 16 + lo)) r)
  | String _ EmptyString => None
  end.

Lemma append_two (h l : ascii) (s : string) :
  String.append (String h (String l EmptyString)) s = String h (String l s).
Proof. reflexivity. Qed.

Lemma hex_byte_shape (a : ascii) :
  exists h l, Pkce.hex_byte a = String h (String l EmptyString)
              /\ Pkce.is_hex h = true /\ Pkce.is_hex l = true
              /\ unhex_digit h = Some (N_of_ascii a / 16)%N
              /\ unhex_digit l = Some (N_of_ascii a mod 16)%N.
Proof.
  destruct a as [[] [] [] [] [] [] [] []]; do 2 eexists;
    (split; [reflexivity |]); repeat split.
Qed.

(** [generateState] writes two lower-case hexadecimal digits for every
    random byte, 64 characters for the 32 bytes, and different bytes give
    different states. *)
Theorem generateState_hex (random : string) :
  String.length (Pkce.generateState random) = (2 * String.length random)%nat
  /\ Pkce.all_chars Pkce.is_hex (Pkce.generateState random) = true
  /\ unhex (Pkce.generateState random) = Some random
  /\ (forall random', Pkce.generateState random = Pkce.generateState random' ->
                      random = random').
Proof.
  assert (Hunhex : forall r, unhex (Pkce.generateState r) = Some r).
  { induction r as [| a r IH]; [reflexivity |].
    cbn [Pkce.generateState].
    destruct (hex_byte_shape a) as (h & l & -> & _ & _ & Hh & Hl).
    rewrite append_two. cbn [unhex]. rewrite Hh, Hl, IH. cbn.
    f_equal. f_equal.
    rewrite N.mul_comm, <- N.div_mod by lia. apply ascii_N_embedding. }
  split; [| split; [| split; [apply Hunhex |]]].
  - induction random as [| a r IH]; [reflexivity |].
    cbn [Pkce.generateState]. destruct (hex_byte_shape a) as (h & l & -> & _).
    rewrite append_two. cbn [String.length]. rewrite IH. lia.
  - induction random as [| a r IH]; [reflexivity |].
    cbn [Pkce.generateState]. destruct (hex_byte_shape a) as (h & l & -> & Hh & Hl & _).
    rewrite append_two. cbn [Pkce.all_chars]. rewrite Hh, Hl, IH. reflexivity.
  - intros random' Heq. pose proof (Hunhex random) as H1.
    rewrite Heq, Hunhex in H1. congruence.
Qed.

Lemma generateState_hex_witness :
  rfc7636_octets = Pkce.bytes [116; 24; 223; 180; 151; 153; 224; 37; 79; 250; 96; 125; 216;
                               173; 187; 186; 22; 212; 37; 77; 105; 214; 191; 240; 91; 88;
                               5; 88; 83; 132; 141; 121]%N.
Proof.
  apply (proj2 (proj2 (proj2 (generateState_hex rfc7636_octets)))).
  vm_compute. reflexivity.
Defined.

(** ** The client's route guard ([ProtectedRoute]) *)

Module Client.

(** What [useAuth()] gives the guard: the user as [/me] returned it, the
    stored token, and whether the first check is still running. *)
Record ClientUser := {
  role : option string
}.

Record AuthContext := {
  user : option ClientUser;
  token : option string;
  isLoading : bool
}.

(** [!!user && !!token] *)
Definition isAuthenticated (ctx : AuthContext) : bool :=
  (match user ctx with Some _ => true | None => false end && Js.truthy_opt (token ctx))%bool.

(** [user?.role] *)
Definition user_role (ctx : AuthContext) : option string := user ctx ≫= role.

(** [user?.role === 'admin' || user?.role === 'super_admin' || false] *)
Definition isAdmin (ctx : AuthContext) : bool :=
  match user_role ctx with
  | Some r => (String.eqb r "admin" || String.eqb r "super_admin")%bool
  | None => false
  end.

(** [user?.role === 'super_admin' || false] *)
Definition isSuperAdmin (ctx : AuthContext) : bool :=
  match user_role ctx with
  | Some r => String.eqb r "super_admin"
  | None => false
  end.

(** [roleHierarchy[key]]: [undefined] for any other key. *)
Definition roleHierarchy (key : string) : option Z :=
  if String.eqb key "user" then Some 0
  else if String.eqb key "admin" then Some 1
  else if String.eqb key "super_admin" then Some 2
  else None.

(** [a < b] on numbers that may be [undefined]: false when one is. *)
Definition lt (a b : option Z) : bool :=
  match a, b with
  | Some x, Some y => x <? y
  | _, _ => false
  end.

Inductive Rendered := Loading | Fallback | Children.

(** [ProtectedRoute({ requiredRole })] *)
Definition ProtectedRoute (ctx : AuthContext) (requiredRole : string) : Rendered :=
  if isLoading ctx then Loading
  else if negb (isAuthenticated ctx) then Fallback
  else
    let userRoleLevel :=
      roleHierarchy (if Js.truthy_opt (user_role ctx) then default "" (user_role ctx) else "user") in
    let requiredRoleLevel := roleHierarchy requiredRole in
    if lt userRoleLevel requiredRoleLevel then Fallback else Children.

End Client.

(** For a user with one of the three roles, the guard shows its children
    exactly when the check is over, user and token are there, and the
    user's level is at least the required one; so a [super_admin] passes
    every requirement, and the guard for ['admin'] and the flag [isAdmin]
    agree, as do the guard for ['super_admin'] and [isSuperAdmin]. *)
Theorem ProtectedRoute_levels (ctx : Client.AuthContext) (r required : Postgres.Role) :
  Client.user_role ctx = Some (Postgres.role_to_string r) ->
  (Client.ProtectedRoute ctx (Postgres.role_to_string required) = Client.Children <->
     Client.isLoading ctx = false /\ Client.isAuthenticated ctx = true
     /\ (default 0 (Client.roleHierarchy (Postgres.role_to_string required))
         <= default 0 (Client.roleHierarchy (Postgres.role_to_string r))))
  /\ (Client.ProtectedRoute ctx "admin" = Client.Children <->
        Client.isLoading ctx = false /\ Client.isAuthenticated ctx = true
        /\ Client.isAdmin ctx = true)
  /\ (Client.ProtectedRoute ctx "super_admin" = Client.Children <->
        Client.isLoading ctx = false /\ Client.isAuthenticated ctx = true
        /\ Client.isSuperAdmin ctx = true).
Proof.
  intros Hrole. unfold Client.ProtectedRoute, Client.isAdmin, Client.isSuperAdmin.
  rewrite Hrole.
  destruct (Client.isLoading ctx).
  { split; [| split]; (split; [discriminate | intros (Hx & _); discriminate Hx]). }
  destruct (Client.isAuthenticated ctx).
  2: { split; [| split]; (split; [discriminate | intros (_ & Hx & _); discriminate Hx]). }
  destruct r, required; cbn; (split; [| split]);
    (split;
     [ intros Hx; first [discriminate Hx | repeat split; first [reflexivity | lia]]
     | intros (_ & _ & Hx); first [reflexivity | discriminate Hx | lia] ]).
Qed.

Definition signed_in (r : string) : Client.AuthContext :=
  {| Client.user := Some {| Client.role := Some r |};
     Client.token := Some "token"; Client.isLoading := false |}.

Lemma ProtectedRoute_levels_witness :
  Client.ProtectedRoute (signed_in "admin") "user" = Client.Children
  /\ Client.ProtectedRoute (signed_in "admin") "super_admin" <> Client.Children.
Proof.
  destruct (ProtectedRoute_levels (signed_in "admin") Postgres.admin Postgres.user eq_refl)
    as [Hlevels _].
  destruct (ProtectedRoute_levels (signed_in "admin") Postgres.admin Postgres.super_admin eq_refl)
    as (_ & _ & Hsuper).
  split.
  - apply Hlevels. repeat split. cbn. lia.
  - intros Hshown. apply Hsuper in Hshown as (_ & _ & Hflag). discriminate.
Defined.

(** A signed-in user whose role is none of the three passes every
    requirement: the level of an unknown role is [undefined], and no
    comparison with [undefined] is true. *)
Theorem ProtectedRoute_unknown_role (ctx : Client.AuthContext) (r required : string) :
  Client.isLoading ctx = false ->
  Client.isAuthenticated ctx = true ->
  Client.user_role ctx = Some r ->
  r <> EmptyString ->
  Client.roleHierarchy r = None ->
  Client.ProtectedRoute ctx required = Client.Children.
Proof.
  intros Hload Hauth Hrole Hne Hunknown. unfold Client.ProtectedRoute.
  rewrite Hload, Hauth, Hrole. cbn [negb Js.truthy_opt].
  replace (Js.truthy r) with true by (destruct r; [contradiction | reflexivity]).
  change (default EmptyString (Some r)) with r. rewrite Hunknown. reflexivity.
Qed.

Lemma ProtectedRoute_unknown_role_witness :
  Client.ProtectedRoute (signed_in "guest") "super_admin" = Client.Children.
Proof.
  apply (ProtectedRoute_unknown_role (signed_in "guest") "guest" "super_admin");
    [reflexivity | reflexivity | reflexivity | discriminate | reflexivity].
Defined.

(** ** The provider registry ([OAuthService]) and the two open routes *)

Module OAuthExt.

(** [HeimdallOptions.oauth.microsoft] *)
Record MicrosoftOptions := {
  clientId : string;
  clientSecret : option string;
  tenantId : option string
}.

(** The fields of a [MicrosoftOAuthProvider]. *)
Record Provider := {
  name : string;
  provider_clientId : string;
  provider_clientSecret : option string;
  provider_tenantId : string;
  redirectUri : string
}.

(** [a || b] for an optional string and a default. *)
Definition or_default (a : option string) (b : string) : string :=
  if Js.truthy_opt a then default b a else b.

(** [new MicrosoftOAuthProvider(config)] *)
Definition new_provider (o : MicrosoftOptions) (redirect : string) : Provider :=
  {| name := "microsoft";
     provider_clientId := clientId o;
     provider_clientSecret := clientSecret o;
     provider_tenantId := or_default (tenantId o) "common";
     redirectUri := redirect |}.

(** A [Map<string, OAuthProvider>]: its entries in insertion order. *)
Fixpoint set (k : string) (v : Provider) (m : list (string * Provider))
    : list (string * Provider) :=
  match m with
  | [] => [(k, v)]
  | (k', v') :: rest => if String.eqb k' k then (k, v) :: rest else (k', v') :: set k v rest
  end.

Fixpoint get (k : string) (m : list (string * Provider)) : option Provider :=
  match m with
  | [] => None
  | (k', v') :: rest => if String.eqb k' k then Some v' else get k rest
  end.

Definition registerProvider (p : Provider) (providers : list (string * Provider)) :=
  set (name p) p providers.

Definition getProvider (nm : string) (providers : list (string * Provider)) : option Provider :=
  get nm providers.

(** [Array.from(this.providers.keys())] *)
Definition getAllProviders (providers : list (string * Provider)) : list string :=
  fst <$> providers.

(** The constructor: the Microsoft provider is registered when a client
    id is configured. *)
Definition new (microsoft : option MicrosoftOptions) : list (string * Provider) :=
  match microsoft with
  | Some o => if Js.truthy (clientId o) then registerProvider (new_provider o "") [] else []
  | None => []
  end.

(** [providers.microsoft] of [GET /config] *)
Record SSOProvider := {
  enabled : bool;
  sso_clientId : string;
  sso_tenantId : string;
  displayName : string
}.

Definition config_microsoft (microsoft : option MicrosoftOptions) : option SSOProvider :=
  match microsoft with
  | Some o =>
      if Js.truthy (clientId o)
      then Some {| enabled := true; sso_clientId := clientId o;
                   sso_tenantId := or_default (tenantId o) "common";
                   displayName := "Microsoft" |}
      else None
  | None => None
  end.

(** [features.oauth] of [GET /health] *)
Definition health_oauth (microsoft : option MicrosoftOptions) : list string :=
  getAllProviders (new microsoft).

End OAuthExt.

(** Registering a provider: it is then found under its name, the other
    names find what they found, and a name is listed once, at the place
    where it was first registered. *)
Theorem registerProvider_lookup (p : OAuthExt.Provider)
    (providers : list (string * OAuthExt.Provider)) :
  OAuthExt.getProvider (OAuthExt.name p) (OAuthExt.registerProvider p providers) = Some p
  /\ (forall nm, nm <> OAuthExt.name p ->
        OAuthExt.getProvider nm (OAuthExt.registerProvider p providers)
        = OAuthExt.getProvider nm providers)
  /\ OAuthExt.getAllProviders (OAuthExt.registerProvider p providers)
     = match OAuthExt.getProvider (OAuthExt.name p) providers with
       | Some _ => OAuthExt.getAllProviders providers
       | None => (OAuthExt.getAllProviders providers ++ [OAuthExt.name p])%list
       end
  /\ (NoDup (OAuthExt.getAllProviders providers) ->
      NoDup (OAuthExt.getAllProviders (OAuthExt.registerProvider p providers))).
Proof.
  unfold OAuthExt.getProvider, OAuthExt.registerProvider, OAuthExt.getAllProviders.
  set (k := OAuthExt.name p).
  assert (Hget : forall l, OAuthExt.get k (OAuthExt.set k p l) = Some p).
  { induction l as [| [k' v'] rest IH]; cbn.
    - rewrite String.eqb_refl. reflexivity.
    - destruct (String.eqb k' k) eqn:Hk; cbn; [rewrite String.eqb_refl | rewrite Hk]; auto. }
  assert (Hother : forall nm l, nm <> k ->
            OAuthExt.get nm (OAuthExt.set k p l) = OAuthExt.get nm l).
  { intros nm l Hne. induction l as [| [k' v'] rest IH]; cbn.
    - destruct (String.eqb_spec k nm); [congruence | reflexivity].
    - destruct (String.eqb_spec k' k) as [-> | Hk]; cbn.
      + destruct (String.eqb_spec k nm); [congruence | reflexivity].
      + destruct (String.eqb k' nm); [reflexivity | exact IH]. }
  assert (Hkeys : forall l, fst <$> OAuthExt.set k p l
                  = match OAuthExt.get k l with
                    | Some _ => fst <$> l
                    | None => ((fst <$> l) ++ [k])%list
                    end).
  { induction l as [| [k' v'] rest IH]; cbn; [reflexivity |].
    destruct (String.eqb_spec k' k) as [-> | Hk]; cbn; [reflexivity |].
    rewrite IH. destruct (OAuthExt.get k rest); reflexivity. }
  assert (Hin : forall l, OAuthExt.get k l = None -> k ∉ fst <$> l).
  { induction l as [| [k' v'] rest IH]; cbn; [intros _; apply not_elem_of_nil |].
    destruct (String.eqb_spec k' k) as [-> | Hk]; [discriminate |].
    intros Hnone. apply not_elem_of_cons. split; [congruence | exact (IH Hnone)]. }
  split; [apply Hget |]. split; [intros nm Hne; apply Hother, Hne |]. split; [apply Hkeys |].
  intros Hnd. rewrite Hkeys. destruct (OAuthExt.get k providers) eqn:Hk; [exact Hnd |].
  apply NoDup_app. split; [exact Hnd |]. split; [| apply NoDup_singleton].
  intros x Hx Hx'. apply list_elem_of_singleton in Hx'. subst x. exact (Hin _ Hk Hx).
Qed.

(** The service knows the provider [microsoft] exactly when a client id
    is configured, [/health] lists it exactly when [/config] offers it,
    and both name the tenant the provider uses: the configured one, or
    ['common']. *)
Theorem providers_of_options (microsoft : option OAuthExt.MicrosoftOptions) :
  OAuthExt.health_oauth microsoft
  = match OAuthExt.config_microsoft microsoft with
    | Some _ => ["microsoft"]
    | None => []
    end
  /\ match OAuthExt.getProvider "microsoft" (OAuthExt.new microsoft),
           OAuthExt.config_microsoft microsoft with
     | Some p, Some c =>
         OAuthExt.provider_tenantId p = OAuthExt.sso_tenantId c
         /\ OAuthExt.provider_clientId p = OAuthExt.sso_clientId c
         /\ (OAuthExt.provider_tenantId p = "common"
             \/ Some (OAuthExt.provider_tenantId p) = (microsoft ≫= OAuthExt.tenantId))
     | None, None =>
         forall o, microsoft = Some o -> OAuthExt.clientId o = EmptyString
     | _, _ => False
     end.
Proof.
  unfold OAuthExt.health_oauth, OAuthExt.config_microsoft, OAuthExt.new.
  destruct microsoft as [o |]; [| split; [reflexivity | discriminate]].
  destruct (OAuthExt.clientId o) as [| c cs] eqn:Hc; cbn [Js.truthy].
  - split; [reflexivity |]. cbn. intros o' [= <-]. exact Hc.
  - split; [reflexivity |]. cbn. rewrite ?Hc.
    split; [reflexivity |]. split; [reflexivity |].
    unfold OAuthExt.or_default. destruct (OAuthExt.tenantId o) as [t |]; cbn; [| left; reflexivity].
    destruct (Js.truthy t); [right | left]; reflexivity.
Qed.

Definition contoso : OAuthExt.MicrosoftOptions :=
  {| OAuthExt.clientId := "11111111-2222-3333-4444-555555555555";
     OAuthExt.clientSecret := None; OAuthExt.tenantId := None |}.

Lemma registerProvider_lookup_witness :
  OAuthExt.getProvider "microsoft"
    (OAuthExt.registerProvider (OAuthExt.new_provider contoso "https://app/callback")
       (OAuthExt.new (Some contoso)))
  = Some (OAuthExt.new_provider contoso "https://app/callback")
  /\ NoDup (OAuthExt.getAllProviders
              (OAuthExt.registerProvider (OAuthExt.new_provider contoso "https://app/callback")
                 (OAuthExt.new (Some contoso)))).
Proof.
  destruct (registerProvider_lookup (OAuthExt.new_provider contoso "https://app/callback")
              (OAuthExt.new (Some contoso))) as (Hfound & _ & _ & Hnodup).
  split; [exact Hfound |]. apply Hnodup. cbn. apply NoDup_singleton.
Defined.

Lemma providers_of_options_witness :
  OAuthExt.health_oauth (Some contoso) = ["microsoft"].
Proof. exact (proj1 (providers_of_options (Some contoso))). Defined.

Lemma new_secret_length_witness :
  JWTService.new "too short" None = None
  /\ JWTService.expiresIn Reference.service = Jwt.Span "7d".
Proof.
  destruct (new_secret_length "too short" None) as [Hshort _].
  destruct (new_secret_length Reference.secret None) as [_ Hkept].
  split; [apply Hshort; cbn; lia |].
  exact (proj2 (Hkept Reference.service eq_refl)).
Defined.

Lemma extractTokenFromHeader_bearer_witness :
  JWTService.extractTokenFromHeader (Some "Bearer abc123") = Some "abc123".
Proof.
  apply (extractTokenFromHeader_bearer (Some "Bearer abc123") "abc123").
  split; reflexivity.
Defined.
